(** * Blob-chunk reassembly in [PluginToolManager.invoke]

    A shallow embedding of the generator loop of
    [api/core/plugin/impl/tool.py] (lines 116-170): the local class
    [FileChunk], the dictionary [files] and the [for resp in response] loop
    that forwards every message of the plugin daemon's stream except
    [BLOB_CHUNK] messages, which it collects per chunk id and replaces by
    one [BLOB] message when a chunk marked [end] arrives. *)

From Stdlib Require Import NArith Lia.
From stdpp Require Import gmap strings list fin_maps.

Open Scope N_scope.

(** Python [bytes] and [bytearray] values are lists of bytes. *)
Abbreviation byte := Byte.byte.

(** ** The message envelope *)

(** Modelled from the spec: the enumeration [ToolInvokeMessage.MessageType],
    which [tool.py] imports from [core.tools.entities.tool_entities].  The
    loop compares the discriminator with [BLOB_CHUNK] and builds messages
    tagged [BLOB]; every other discriminator value is opaque to it and is
    kept by name. *)
Inductive MessageType : Type :=
  | BLOB_CHUNK
  | BLOB
  | OTHER (tag : string).

#[global] Instance MessageType_eq_dec : EqDecision MessageType.
Proof. solve_decision. Defined.

(** What a generator run raises.  The loop has one [assert] and two
    [raise ValueError(...)] statements. *)
Inductive exn : Type :=
  | AssertionError
  | ValueError (msg : string).

(** [raise ValueError("File is too large which reached the limit of 30MB")] *)
Definition BlobTooLarge : exn :=
  ValueError "File is too large which reached the limit of 30MB".

(** [raise ValueError("File chunk is too large which reached the limit of 8KB")] *)
Definition ChunkTooLarge : exn :=
  ValueError "File chunk is too large which reached the limit of 8KB".

(** [len(blob_data)], a Python integer. *)
Definition len (b : list byte) : N := N.of_nat (length b).

(** [bytearray(n)]: [n] zero bytes. *)
Definition bytearray (n : N) : list byte := replicate (N.to_nat n) Byte.x00.

(** [buf[lo:hi] = v] on a bytearray, for [0 <= lo <= hi].  Python clamps
    both bounds to [len(buf)] and replaces that range by [v], so the buffer
    grows when [v] does not fit; [take] and [drop] clamp the same way. *)
Definition setslice (buf : list byte) (lo hi : N) (v : list byte) : list byte :=
  take (N.to_nat lo) buf ++ v ++ drop (N.to_nat hi) buf.

(** [class FileChunk]: [bytes_written], [total_length], [data]. *)
Record FileChunk : Type := mkFileChunk {
  bytes_written : N;
  total_length : N;
  data : list byte;
}.

(** [FileChunk.__init__(self, total_length)] *)
Definition FileChunk_init (total_length : N) : FileChunk :=
  {| bytes_written := 0;
     total_length := total_length;
     data := bytearray total_length |}.

Section Invoke.

(** The payload of the message kinds the loop never opens, and the [meta]
    value every message carries, are opaque to it. *)
Variables (Payload Meta : Type).

(** Modelled from the spec: the payload classes of [ToolInvokeMessage],
    imported from the same module.  A blob chunk carries
    [{id: string, total_length: integer >= 0, blob: bytes, end: boolean}],
    a blob carries [{blob: bytes}]; a [bytes] field holds a value of its
    own, so a message that was yielded does not change when the buffer it
    was built from is written again. *)
Inductive Message : Type :=
  | BlobChunkMessage (id : string) (total_length : N) (blob : list byte) (end_ : bool)
  | BlobMessage (blob : list byte)
  | OtherMessage (payload : Payload).

(** [ToolInvokeMessage(type=..., message=..., meta=...)] *)
Record ToolInvokeMessage : Type := mkToolInvokeMessage {
  type : MessageType;
  message : Message;
  meta : Meta;
}.

(** A run of the generator, or of one pass through the loop body: the
    dictionary [files] as it is left, the messages yielded in order, and
    the exception that ended the run, if any. *)
Record Run : Type := mkRun {
  files_of : gmap string FileChunk;
  yielded : list ToolInvokeMessage;
  raised : option exn;
}.

(** [if chunk_id not in files: files[chunk_id] = FileChunk(total_length)],
    returning the dictionary together with [files[chunk_id]]. *)
Definition ensure_file (files : gmap string FileChunk) (chunk_id : string)
    (total_length : N) : gmap string FileChunk * FileChunk :=
  match files !! chunk_id with
  | Some fc => (files, fc)
  | None =>
      let fc := FileChunk_init total_length in
      (<[chunk_id := fc]> files, fc)
  end.

(** The lines under [# Append the blob data to the buffer]. *)
Definition append_blob (fc : FileChunk) (blob_data : list byte) : FileChunk :=
  {| bytes_written := bytes_written fc + len blob_data;
     total_length := total_length fc;
     data := setslice (data fc) (bytes_written fc)
               (bytes_written fc + len blob_data) blob_data |}.

(** The body of [for resp in response].  The dictionary is threaded
    through: [files] is rebound where the code updates it in place.  The
    test [a > b] of the code reads [b <? a] here. *)
Definition body (files : gmap string FileChunk) (resp : ToolInvokeMessage) : Run :=
  if decide (type resp = BLOB_CHUNK) then
    match message resp with
    | BlobChunkMessage chunk_id total_length blob_data is_end =>
        let '(files, fc) := ensure_file files chunk_id total_length in
        if is_end then
          mkRun files
            [mkToolInvokeMessage BLOB (BlobMessage (data fc)) (meta resp)]
            None
        else if 30 * 1024 * 1024 <? bytes_written fc + len blob_data then
          mkRun (delete chunk_id files) [] (Some BlobTooLarge)
        else if 8192 <? len blob_data then
          mkRun files [] (Some ChunkTooLarge)
        else
          mkRun (<[chunk_id := append_blob fc blob_data]> files) [] None
    | _ => mkRun files [] (Some AssertionError)
    end
  else
    mkRun files [resp] None.

(** The loop over the response stream, from a given dictionary.  An
    exception leaves the loop: the remaining messages are not read. *)
Fixpoint loop (files : gmap string FileChunk) (response : list ToolInvokeMessage) : Run :=
  match response with
  | [] => mkRun files [] None
  | resp :: rest =>
      let r := body files resp in
      match raised r with
      | Some _ => r
      | None =>
          let r' := loop (files_of r) rest in
          mkRun (files_of r') (yielded r ++ yielded r') (raised r')
      end
  end.

(** [invoke], from [files: dict[str, FileChunk] = {}] on. *)
Definition invoke (response : list ToolInvokeMessage) : Run := loop ∅ response.

End Invoke.

Arguments BlobChunkMessage {Payload} id total_length blob end_.
Arguments BlobMessage {Payload} blob.
Arguments OtherMessage {Payload} payload.
Arguments mkToolInvokeMessage {Payload Meta} type message meta.
Arguments type {Payload Meta} _.
Arguments message {Payload Meta} _.
Arguments meta {Payload Meta} _.
Arguments mkRun {Payload Meta} files_of yielded raised.
Arguments files_of {Payload Meta} _.
Arguments yielded {Payload Meta} _.
Arguments raised {Payload Meta} _.
Arguments body {Payload Meta} files resp.
Arguments loop {Payload Meta} files response.
Arguments invoke {Payload Meta} response.

(** The payloads [b"AB"] and [b"CD"]. *)
Definition AB : list byte := [Byte.x41; Byte.x42].
Definition CD : list byte := [Byte.x43; Byte.x44].

(** ** Reading a stream *)

Section Stream.

Context {Payload Meta : Type}.
Implicit Types (resp : ToolInvokeMessage Payload Meta).
Implicit Types (evs pre rest : list (ToolInvokeMessage Payload Meta)).
Implicit Types (files : gmap string FileChunk).

(** A blob-chunk message as the daemon sends it. *)
Definition chunk (id : string) (total_length : N) (blob : list byte)
    (end_ : bool) (m : Meta) : ToolInvokeMessage Payload Meta :=
  mkToolInvokeMessage BLOB_CHUNK (BlobChunkMessage id total_length blob end_) m.

(** The [BLOB] message the loop builds. *)
Definition blob_message (buf : list byte) (m : Meta) : ToolInvokeMessage Payload Meta :=
  mkToolInvokeMessage BLOB (BlobMessage buf) m.

(** A message the loop forwards as it is: the [else: yield resp] branch. *)
Definition forwarded resp : Prop := type resp ≠ BLOB_CHUNK.

(** The fields the loop reads off a message it takes for a chunk. *)
Definition as_chunk resp : option (string * N * list byte * bool) :=
  if decide (type resp = BLOB_CHUNK) then
    match message resp with
    | BlobChunkMessage id tl blob e => Some (id, tl, blob, e)
    | _ => None
    end
  else None.

(** The [assert isinstance(...)] of the loop passes on this message. *)
Definition well_typed resp : Prop :=
  type resp = BLOB_CHUNK → is_Some (as_chunk resp).

(** The bytes a message adds to the buffer of [id]: the payload of a chunk
    of [id] that is not marked [end]. *)
Definition payload_for (id : string) resp : list byte :=
  match as_chunk resp with
  | Some (id', _, blob, false) => if decide (id' = id) then blob else []
  | _ => []
  end.

(** All the bytes a stream adds to the buffer of [id], in arrival order. *)
Definition written (id : string) evs : list byte :=
  flat_map (payload_for id) evs.

(** The [total_length] of the first chunk of [id] in a stream. *)
Fixpoint declared (id : string) evs : option N :=
  match evs with
  | [] => None
  | resp :: rest =>
      match as_chunk resp with
      | Some (id', tl, _, _) =>
          if decide (id' = id) then Some tl else declared id rest
      | None => declared id rest
      end
  end.

(** The buffer of [id] after a stream that raised nothing: what was
    written, then the zero bytes of the allocation that are left. *)
Definition buffer (id : string) evs : list byte :=
  let w := written id evs in
  w ++ bytearray (default 0 (declared id evs) - len w).

(** The entry of [id] in [files] after a stream that raised nothing. *)
Definition pending (id : string) evs : option FileChunk :=
  (λ tl, {| bytes_written := len (written id evs);
            total_length := tl;
            data := buffer id evs |}) <$> declared id evs.

(** [files] is the dictionary a clean run over [pre] leaves. *)
Definition tracks pre files : Prop := ∀ id, files !! id = pending id pre.

(** What the loop yields for [resp] after a clean run over [pre]. *)
Definition emitted pre resp : list (ToolInvokeMessage Payload Meta) :=
  match as_chunk resp with
  | Some (id, _, _, true) => [blob_message (buffer id (pre ++ [resp])) (meta resp)]
  | Some (_, _, _, false) => []
  | None => [resp]
  end.

(** What the loop yields for the stream [evs] that follows [pre]. *)
Fixpoint reassembled pre evs : list (ToolInvokeMessage Payload Meta) :=
  match evs with
  | [] => []
  | resp :: rest => emitted pre resp ++ reassembled (pre ++ [resp]) rest
  end.

(** After [pre], the message [resp] passes the [assert] and both guards. *)
Definition accepted pre resp : Prop :=
  well_typed resp ∧
  ∀ id tl blob, as_chunk resp = Some (id, tl, blob, false) →
    len (written id pre) + len blob ≤ 30 * 1024 * 1024 ∧ len blob ≤ 8192.

(** The chunk id of a message the loop takes for a chunk. *)
Definition chunk_id_of resp : option string :=
  (λ p, p.1.1.1) <$> as_chunk resp.

(** A stream with the chunk messages of [id] left out. *)
Definition without (id : string) evs : list (ToolInvokeMessage Payload Meta) :=
  filter (λ resp, chunk_id_of resp ≠ Some id) evs.

(** No chunk of [id] in the stream is marked [end]. *)
Definition never_final (id : string) evs : Prop :=
  Forall (λ resp, ∀ tl blob, as_chunk resp ≠ Some (id, tl, blob, true)) evs.

(** Every chunk not marked [end] carries at most 8192 bytes. *)
Definition chunks_small evs : Prop :=
  Forall (λ resp, ∀ id tl blob,
            as_chunk resp = Some (id, tl, blob, false) → len blob ≤ 8192) evs.

(** No chunk id is sent more than 30 MiB in chunks not marked [end]. *)
Definition blobs_small evs : Prop :=
  ∀ id, len (written id evs) ≤ 30 * 1024 * 1024.

End Stream.

(** ** The shape of runs and entries *)

Section Shape.

Context {Payload Meta : Type}.
Implicit Types (resp : ToolInvokeMessage Payload Meta).

(** A chunk that is not marked [end]: the one kind of message for which the
    loop body has no [yield]. *)
Definition is_part resp : bool :=
  match as_chunk resp with
  | Some (_, _, _, false) => true
  | _ => false
  end.

(** A [BLOB_CHUNK] message on which the [assert isinstance(...)] fails. *)
Definition mistyped resp : Prop :=
  type resp = BLOB_CHUNK ∧ as_chunk resp = None.

End Shape.

(** What holds of every entry of [files]: at most 30 MiB were written into
    it, and its buffer is as long as the allocation or as what was written,
    whichever is more. *)
Definition entry_ok (fc : FileChunk) : Prop :=
  bytes_written fc ≤ 30 * 1024 * 1024
  ∧ len (data fc) = N.max (total_length fc) (bytes_written fc).

(** ** Provider entities: [fetch_tool_providers], [fetch_tool_provider] *)

Section Providers.

(** The entity classes are imported from [core.plugin.entities] and
    [core.tools.entities]; the two functions read and assign the fields
    named here.  What else each class holds is carried along untouched. *)
Context {ToolFields IdentityFields DeclarationFields ProviderFields : Type}.

(** [tool.identity]: its [provider] field, and the rest. *)
Record ToolIdentity : Type := mkToolIdentity {
  tool_provider : string;
  tool_identity_fields : ToolFields;
}.

(** A tool of [provider.declaration.tools]. *)
Record ToolEntity : Type := mkToolEntity {
  tool_identity : ToolIdentity;
  tool_fields : ToolFields;
}.

(** [provider.declaration.identity]: its [name] field, and the rest. *)
Record ProviderIdentity : Type := mkProviderIdentity {
  provider_name : string;
  provider_identity_fields : IdentityFields;
}.

(** [provider.declaration]: [identity], [tools], and the rest. *)
Record Declaration : Type := mkDeclaration {
  identity : ProviderIdentity;
  tools : list ToolEntity;
  declaration_fields : DeclarationFields;
}.

(** [PluginToolProviderEntity]: [plugin_id], [declaration], and the rest. *)
Record PluginToolProviderEntity : Type := mkPluginToolProviderEntity {
  plugin_id : string;
  declaration : Declaration;
  provider_fields : ProviderFields;
}.

(** [tool.identity.provider = name] *)
Definition set_provider (name : string) (tool : ToolEntity) : ToolEntity :=
  {| tool_identity :=
       {| tool_provider := name;
          tool_identity_fields := tool_identity_fields (tool_identity tool) |};
     tool_fields := tool_fields tool |}.

(** The statements both functions run on a provider the daemon returned:
    [declaration.identity.name = f"{plugin_id}/{declaration.identity.name}"],
    then [tool.identity.provider = declaration.identity.name] for every
    tool. *)
Definition qualify (provider : PluginToolProviderEntity) : PluginToolProviderEntity :=
  let name := (plugin_id provider ++ "/"
               ++ provider_name (identity (declaration provider)))%string in
  {| plugin_id := plugin_id provider;
     declaration :=
       {| identity :=
            {| provider_name := name;
               provider_identity_fields :=
                 provider_identity_fields (identity (declaration provider)) |};
          tools := set_provider name <$> tools (declaration provider);
          declaration_fields := declaration_fields (declaration provider) |};
     provider_fields := provider_fields provider |}.

(** [fetch_tool_providers], from the [response] of the request on: the
    loop [for provider in response], and [return response]. *)
Definition fetch_tool_providers (response : list PluginToolProviderEntity)
    : list PluginToolProviderEntity :=
  qualify <$> response.

(** [fetch_tool_provider], from the [response] of the request on. *)
Definition fetch_tool_provider (response : PluginToolProviderEntity)
    : PluginToolProviderEntity :=
  qualify response.

(** Two tools that differ at most in [identity.provider]. *)
Definition same_but_provider (tool tool' : ToolEntity) : Prop :=
  tool_identity_fields (tool_identity tool)
  = tool_identity_fields (tool_identity tool')
  ∧ tool_fields tool = tool_fields tool'.

(** Two providers that differ at most in the [identity.provider] of their
    tools. *)
Definition same_but_tool_providers (provider provider' : PluginToolProviderEntity)
    : Prop :=
  plugin_id provider = plugin_id provider'
  ∧ identity (declaration provider) = identity (declaration provider')
  ∧ Forall2 same_but_provider
      (tools (declaration provider)) (tools (declaration provider'))
  ∧ declaration_fields (declaration provider)
    = declaration_fields (declaration provider')
  ∧ provider_fields provider = provider_fields provider'.

End Providers.

(** ** First responses: [validate_provider_credentials],
       [get_runtime_parameters] *)

Section First_response.

(** [ToolParameter] is imported from [core.tools.entities.tool_entities];
    the function hands the values on as they are. *)
Context {ToolParameter : Type}.

(** [PluginBasicBooleanResponse], of which the function reads [result]. *)
Record PluginBasicBooleanResponse : Type := mkPluginBasicBooleanResponse {
  result : bool;
}.

(** [class RuntimeParametersResponse(BaseModel)] *)
Record RuntimeParametersResponse : Type := mkRuntimeParametersResponse {
  parameters : list ToolParameter;
}.

(** [validate_provider_credentials], from the [response] stream on:
    [for resp in response: return resp.result], then [return False]. *)
Definition validate_provider_credentials
    (response : list PluginBasicBooleanResponse) : bool :=
  match response with
  | resp :: _ => result resp
  | [] => false
  end.

(** [get_runtime_parameters], from the [response] stream on:
    [for resp in response: return resp.parameters], then [return []]. *)
Definition get_runtime_parameters
    (response : list RuntimeParametersResponse) : list ToolParameter :=
  match response with
  | resp :: _ => parameters resp
  | [] => []
  end.

End First_response.

(** ** The JSON transformers of [fetch_tool_providers] and [fetch_tool_provider] *)

(** The exceptions the dictionary and list operations of the transformers
    raise on a value of the wrong kind. *)
Inductive pyerr : Type :=
  | AttributeError
  | TypeError
  | KeyError (key : string).

(** A value, or the exception raised instead. *)
Inductive outcome (A : Type) : Type :=
  | Ok (a : A)
  | Raise (e : pyerr).

Arguments Ok {A} a.
Arguments Raise {A} e.

#[global] Instance outcome_ret : MRet outcome := λ A a, Ok a.
#[global] Instance outcome_bind : MBind outcome := λ A B f r,
  match r with Ok a => f a | Raise e => Raise e end.
#[global] Instance outcome_fmap : FMap outcome := λ A B f r,
  match r with Ok a => Ok (f a) | Raise e => Raise e end.

Section Json.

(** JSON numbers are kept as they come: the transformers only ever ask
    whether one is true, that is, not zero. *)
Context {Num : Type} (num_bool : Num → bool).

(** What [response.json()] holds.  A dictionary keeps its keys in the
    order they were inserted. *)
#[local] Unset Elimination Schemes.
Inductive json : Type :=
  | JNone
  | JBool (b : bool)
  | JNum (x : Num)
  | JStr (s : string)
  | JList (l : list json)
  | JDict (d : list (string * json)).
#[local] Set Elimination Schemes.

(** The value of the first entry with key [k]. *)
Fixpoint dict_get (d : list (string * json)) (k : string) : option json :=
  match d with
  | [] => None
  | (k', v) :: d' => if decide (k' = k) then Some v else dict_get d' k
  end.

(** [d[k] = v]: the entry of [k] gets the value in place, a new key goes
    to the end. *)
Fixpoint dict_set (d : list (string * json)) (k : string) (v : json)
    : list (string * json) :=
  match d with
  | [] => [(k, v)]
  | (k', v') :: d' =>
      if decide (k' = k) then (k, v) :: d' else (k', v') :: dict_set d' k v
  end.

(** [bool(v)], as [or] and [if] take it. *)
Definition truthy (v : json) : bool :=
  match v with
  | JNone => false
  | JBool b => b
  | JNum x => num_bool x
  | JStr s => match s with EmptyString => false | _ => true end
  | JList l => match l with [] => false | _ => true end
  | JDict d => match d with [] => false | _ => true end
  end.

(** [v.get(k, dflt)]: only a dictionary has the method. *)
Definition get (v : json) (k : string) (dflt : json) : outcome json :=
  match v with
  | JDict d => Ok (default dflt (dict_get d k))
  | _ => Raise AttributeError
  end.

(** [v[k]] for a string [k]. *)
Definition getitem (v : json) (k : string) : outcome json :=
  match v with
  | JDict d =>
      match dict_get d k with
      | Some x => Ok x
      | None => Raise (KeyError k)
      end
  | _ => Raise TypeError
  end.

(** [v[k] = x] for a string [k]: [v] as it is afterwards. *)
Definition setitem (v : json) (k : string) (x : json) : outcome json :=
  match v with
  | JDict d => Ok (JDict (dict_set d k x))
  | _ => Raise TypeError
  end.

(** [tool["identity"]["provider"] = name]: the tool as it is afterwards,
    holding the identity that was assigned to. *)
Definition set_tool_provider (name : json) (tool : json) : outcome json :=
  ident ← getitem tool "identity";
  ident' ← setitem ident "provider" name;
  setitem tool "identity" ident'.

(** A loop body run on the items of a list in turn: the items as the
    body leaves them, or the first exception. *)
Fixpoint for_each (f : json → outcome json) (l : list json) : outcome (list json) :=
  match l with
  | [] => Ok []
  | x :: l' => x' ← f x; l'' ← for_each f l'; Ok (x' :: l'')
  end.

(** The characters of a string, each a string of its own. *)
Fixpoint chars (s : string) : list json :=
  match s with
  | EmptyString => []
  | String c s' => JStr (String c EmptyString) :: chars s'
  end.

(** [for x in v: f(x)]: [v] as the loop leaves it.  A list hands out its
    items, a dictionary its keys and a string its characters (strings,
    which no body can change); nothing else can be iterated. *)
Definition for_in (v : json) (f : json → outcome json) : outcome json :=
  match v with
  | JList l => JList <$> for_each f l
  | JDict d => _ ← for_each f (JStr <$> d.*1); Ok v
  | JStr s => _ ← for_each f (chars s); Ok v
  | _ => Raise TypeError
  end.

(** A block run on [d.get(k, dflt)]: what it changes in the value shows
    in [d] when the key is there, and is lost with the default when not. *)
Definition on_key (d : list (string * json)) (k : string) (dflt : json)
    (f : json → outcome json) : outcome (list (string * json)) :=
  match dict_get d k with
  | Some v => v' ← f v; Ok (dict_set d k v')
  | None => _ ← f dflt; Ok d
  end.

(** [for tool in declaration.get("tools", []):
       tool["identity"]["provider"] = name] *)
Definition set_tools_provider (name : json) (declaration : json) : outcome json :=
  match declaration with
  | JDict d =>
      JDict <$> on_key d "tools" (JList [])
                  (λ tools, for_in tools (set_tool_provider name))
  | _ => Raise AttributeError
  end.

(** The lines of the first transformer that follow
    [declaration = provider.get("declaration", {}) or {}]. *)
Definition transform_declaration (declaration : json) : outcome json :=
  ident ← get declaration "identity" (JDict []);
  name ← get ident "name" JNone;
  set_tools_provider name declaration.

(** The body of [for provider in json_response.get("data", [])].  When
    the declaration is missing or false the [{}] that stands in for it is
    not part of the provider. *)
Definition transform_provider (provider : json) : outcome json :=
  match provider with
  | JDict p =>
      match dict_get p "declaration" with
      | Some declaration =>
          if truthy declaration then
            declaration' ← transform_declaration declaration;
            Ok (JDict (dict_set p "declaration" declaration'))
          else
            _ ← transform_declaration (JDict []); Ok provider
      | None => _ ← transform_declaration (JDict []); Ok provider
      end
  | _ => Raise AttributeError
  end.

(** The [transformer] of [fetch_tool_providers]. *)
Definition fetch_tool_providers_transformer (json_response : list (string * json))
    : outcome (list (string * json)) :=
  on_key json_response "data" (JList [])
    (λ data, for_in data transform_provider).

(** The [transformer] of [fetch_tool_provider]; [name] is
    [tool_provider_id.provider_name]. *)
Definition fetch_tool_provider_transformer (name : string)
    (json_response : list (string * json)) : outcome (list (string * json)) :=
  match dict_get json_response "data" with
  | Some data =>
      if truthy data then
        match data with
        | JDict dd =>
            dd' ← on_key dd "declaration" (JDict [])
                    (set_tools_provider (JStr name));
            Ok (dict_set json_response "data" (JDict dd'))
        | _ => Raise AttributeError
        end
      else Ok json_response
  | None => Ok json_response
  end.

(** [v[k]] where [v] is a dictionary that has the key. *)
Definition at_key (k : string) (v : json) : option json :=
  match v with
  | JDict d => dict_get d k
  | _ => None
  end.

(** The items of a list. *)
Definition items (v : json) : list json :=
  match v with
  | JList l => l
  | _ => []
  end.

(** The providers of a response: the items of its ["data"]. *)
Definition providers_of (json_response : list (string * json)) : list json :=
  items (default JNone (dict_get json_response "data")).

(** The tools of a declaration: the items of its ["tools"]. *)
Definition tools_of (declaration : json) : list json :=
  items (default JNone (at_key "tools" declaration)).

(** [tool["identity"]["provider"]] *)
Definition provider_of_tool (tool : json) : option json :=
  at_key "identity" tool ≫= at_key "provider".

(** [declaration.get("identity", {}).get("name")] where it raises nothing
    or the identity is missing. *)
Definition name_of (declaration : json) : json :=
  default JNone (at_key "identity" declaration ≫= at_key "name").

End Json.

Arguments JNone {Num}.
Arguments JBool {Num} b.
Arguments JStr {Num} s.
Arguments JList {Num} l.
Arguments JDict {Num} d.

(** ** Sample responses *)

(** Integers for the JSON numbers, true when not zero. *)
Definition int_bool (z : Z) : bool := negb (z =? 0)%Z.

(** A tool as the daemon sends it, with a provider field or without. *)
Definition sample_tool (tool_name : string) (fields : list (string * @json Z))
    : @json Z :=
  JDict [("identity", JDict (("name", JStr tool_name) :: fields));
         ("description", JStr "a tool")].

(** A provider with two tools, one of which names another provider. *)
Definition sample_provider : @json Z :=
  JDict [("plugin_id", JStr "langgenius/search");
         ("declaration",
          JDict [("identity", JDict [("name", JStr "search")]);
                 ("tools", JList [sample_tool "web" [];
                                  sample_tool "news" [("provider", JStr "old")]])])].

(** A listing of that provider and of one whose declaration is null. *)
Definition sample_listing : list (string * @json Z) :=
  [("code", JNum 0%Z);
   ("data", JList [sample_provider; JDict [("declaration", JNone)]])].

(** That provider and that listing as the transformers leave them: both
    tools name the provider ["search"]. *)
Definition sample_provider_named : @json Z :=
  JDict [("plugin_id", JStr "langgenius/search");
         ("declaration",
          JDict [("identity", JDict [("name", JStr "search")]);
                 ("tools", JList [sample_tool "web" [("provider", JStr "search")];
                                  sample_tool "news" [("provider", JStr "search")]])])].

Definition sample_listing_named : list (string * @json Z) :=
  [("code", JNum 0%Z);
   ("data", JList [sample_provider_named; JDict [("declaration", JNone)]])].

(** The same provider as an entity, its other fields left out. *)
Definition sample_entity (stale : string) : @PluginToolProviderEntity () () () () :=
  {| plugin_id := "langgenius/search";
     declaration :=
       {| identity := {| provider_name := "search"; provider_identity_fields := () |};
          tools := [ {| tool_identity := {| tool_provider := stale;
                                            tool_identity_fields := () |};
                        tool_fields := () |} ];
          declaration_fields := () |};
     provider_fields := () |}.

(** ** Sample streams *)

(** Messages with a string payload and a string for [meta]. *)
Abbreviation Msg := (ToolInvokeMessage string string).

(** A text message, which the loop forwards. *)
Definition text (s m : string) : Msg :=
  mkToolInvokeMessage (OTHER "text") (OtherMessage s) m.

(** A chunk of [id] that is not final and carries [n] bytes [0x41]. *)
Definition part (id : string) (n : N) : Msg :=
  chunk id 0 (replicate (N.to_nat n) Byte.x41) false "part".

(** 3840 chunks of 8192 bytes for the id ["x"]: 30 * 1024 * 1024 bytes,
    each chunk and the running total within the limits. *)
Definition stream_30MiB : list Msg := replicate 3840 (part "x" 8192).

(** The two chunks of the multi-chunk example, declared as 4 bytes. *)
Definition two_chunks : list Msg :=
  [chunk "x" 4 AB false "first"; chunk "x" 4 CD true "last"].

(** A partial blob for ["x"] and a complete one for ["y"]. *)
Definition partial_stream : list Msg :=
  [chunk "x" 4 AB false "x1"; text "hello" "t"; chunk "y" 2 CD false "y1";
   chunk "y" 2 [] true "y2"].

(** ** The loop *)

Section Loop_facts.

Context {Payload Meta : Type}.
Implicit Types (resp : ToolInvokeMessage Payload Meta).
Implicit Types (evs pre rest : list (ToolInvokeMessage Payload Meta)).
Implicit Types (files : gmap string FileChunk).

Lemma len_app (a b : list byte) : len (a ++ b) = len a + len b.
Proof. unfold len. rewrite length_app. lia. Qed.

Lemma len_nil : len [] = 0.
Proof. reflexivity. Qed.

Lemma len_bytearray n : len (bytearray n) = n.
Proof. unfold len, bytearray. rewrite length_replicate. lia. Qed.

Lemma len_replicate n (b : byte) : len (replicate n b) = N.of_nat n.
Proof. unfold len. by rewrite length_replicate. Qed.

(** Writing at the end of what was written eats into the zero bytes that
    are left, and grows the buffer when none are. *)
Lemma setslice_append (w blob : list byte) (k : N) :
  setslice (w ++ bytearray k) (len w) (len w + len blob) blob
  = (w ++ blob) ++ bytearray (k - len blob).
Proof.
  unfold setslice, len, bytearray.
  rewrite Nat2N.id, take_app_length.
  replace (N.to_nat (N.of_nat (length w) + N.of_nat (length blob)))
    with (length w + length blob)%nat by lia.
  rewrite drop_app_add', drop_replicate by done.
  replace (N.to_nat (k - N.of_nat (length blob)))
    with (N.to_nat k - length blob)%nat by lia.
  by rewrite <- (assoc_L (++)).
Qed.

Lemma as_chunk_chunk id tl blob e (m : Meta) :
  as_chunk (chunk (Payload:=Payload) id tl blob e m) = Some (id, tl, blob, e).
Proof. reflexivity. Qed.

Lemma as_chunk_Some resp id tl blob e :
  as_chunk resp = Some (id, tl, blob, e) → ∃ m, resp = chunk id tl blob e m.
Proof.
  destruct resp as [ty msg m]. unfold as_chunk, chunk. simpl.
  case_decide; [subst ty | done]. destruct msg; [| done..].
  intros [= -> -> -> ->]. by exists m.
Qed.

(** *** One pass through the body *)

Lemma body_other files resp :
  type resp ≠ BLOB_CHUNK → body files resp = mkRun files [resp] None.
Proof. intros H. unfold body. by case_decide. Qed.

Lemma body_final files id tl blob (m : Meta) :
  body (Payload:=Payload) files (chunk id tl blob true m)
  = mkRun (ensure_file files id tl).1
      [blob_message (data (ensure_file files id tl).2) m] None.
Proof. unfold body, chunk. simpl. by destruct (ensure_file files id tl). Qed.

Lemma body_not_final files id tl blob (m : Meta) :
  body (Payload:=Payload) files (chunk id tl blob false m)
  = let files' := (ensure_file files id tl).1 in
    let fc := (ensure_file files id tl).2 in
    if 30 * 1024 * 1024 <? bytes_written fc + len blob then
      mkRun (delete id files') [] (Some BlobTooLarge)
    else if 8192 <? len blob then
      mkRun files' [] (Some ChunkTooLarge)
    else
      mkRun (<[id := append_blob fc blob]> files') [] None.
Proof. unfold body, chunk. simpl. by destruct (ensure_file files id tl). Qed.

Lemma ensure_file_lookup files id tl :
  (ensure_file files id tl).1 !! id = Some (ensure_file files id tl).2.
Proof.
  unfold ensure_file. destruct (files !! id) eqn:E; simpl; [done |].
  apply lookup_insert_eq.
Qed.

Lemma ensure_file_other files id tl id' :
  id ≠ id' → (ensure_file files id tl).1 !! id' = files !! id'.
Proof.
  intros H. unfold ensure_file. destruct (files !! id); simpl; [done |].
  by apply lookup_insert_ne.
Qed.

Lemma delete_ensure_file files id tl :
  delete id (ensure_file files id tl).1 = delete id files.
Proof.
  unfold ensure_file. destruct (files !! id); simpl; [done |].
  apply delete_insert_eq.
Qed.

(** *** The whole loop *)

Lemma loop_app files evs rest :
  loop files (evs ++ rest)
  = let r := loop files evs in
    match raised r with
    | Some _ => r
    | None =>
        let r' := loop (files_of r) rest in
        mkRun (files_of r') (yielded r ++ yielded r') (raised r')
    end.
Proof.
  revert files. induction evs as [| resp evs IH]; intros files; simpl.
  - by destruct (loop files rest).
  - destruct (raised (body files resp)) eqn:E; simpl; [by rewrite E |].
    rewrite IH. simpl.
    destruct (raised (loop (files_of (body files resp)) evs)) eqn:E'; simpl;
      [by rewrite E' |].
    by rewrite (assoc_L (++)).
Qed.

Lemma loop_raised_app files evs rest e :
  raised (loop files evs) = Some e → loop files (evs ++ rest) = loop files evs.
Proof. intros H. rewrite loop_app. simpl. by rewrite H. Qed.

Lemma loop_pass_through files evs :
  Forall forwarded evs → loop files evs = mkRun files evs None.
Proof.
  intros H. revert files.
  induction H as [| resp evs Hr _ IH]; intros files; simpl; [done |].
  rewrite (body_other _ _ Hr). simpl. by rewrite IH.
Qed.

Lemma loop_forwarded_app files pre rest :
  Forall forwarded pre →
  loop files (pre ++ rest)
  = mkRun (files_of (loop files rest)) (pre ++ yielded (loop files rest))
      (raised (loop files rest)).
Proof. intros F. rewrite loop_app. by rewrite (loop_pass_through _ _ F). Qed.

Lemma loop_cons_clean files resp rest files' ys :
  body files resp = mkRun files' ys None →
  loop files (resp :: rest)
  = mkRun (files_of (loop files' rest)) (ys ++ yielded (loop files' rest))
      (raised (loop files' rest)).
Proof. intros B. simpl. by rewrite B. Qed.

Lemma loop_cons_raised files resp rest files' ys e :
  body files resp = mkRun files' ys (Some e) →
  loop files (resp :: rest) = mkRun files' ys (Some e).
Proof. intros B. simpl. by rewrite B. Qed.

Lemma ensure_file_absent files id tl :
  files !! id = None →
  ensure_file files id tl = (<[id := FileChunk_init tl]> files, FileChunk_init tl).
Proof. intros H. unfold ensure_file. by rewrite H. Qed.

Lemma ensure_file_present files id tl fc :
  files !! id = Some fc → ensure_file files id tl = (files, fc).
Proof. intros H. unfold ensure_file. by rewrite H. Qed.

(** *** What a clean run leaves in [files] *)

Lemma written_app id pre evs :
  written id (pre ++ evs) = written id pre ++ written id evs.
Proof. unfold written. by rewrite flat_map_app. Qed.

Lemma written_snoc id pre resp :
  written id (pre ++ [resp]) = written id pre ++ payload_for id resp.
Proof. rewrite written_app. unfold written. simpl. by rewrite (right_id_L [] (++)). Qed.

Lemma declared_app id pre evs :
  declared id (pre ++ evs)
  = match declared id pre with Some tl => Some tl | None => declared id evs end.
Proof.
  induction pre as [| resp pre IH]; simpl; [done |].
  destruct (as_chunk resp) as [[[[id' tl] blob] e] |]; [| done].
  by case_decide.
Qed.

Lemma declared_None_written id pre :
  declared id pre = None → written id pre = [].
Proof.
  induction pre as [| resp pre IH]; simpl; [done |].
  unfold written. simpl. unfold payload_for.
  destruct (as_chunk resp) as [[[[id' tl] blob] e] |]; [| exact IH].
  case_decide; [done |]. intros D. destruct e; simpl; by apply IH.
Qed.

Lemma payload_for_other id resp :
  chunk_id_of resp ≠ Some id → payload_for id resp = [].
Proof.
  unfold chunk_id_of, payload_for.
  destruct (as_chunk resp) as [[[[id' tl] blob] e] |]; simpl; [| done].
  intros Hne. destruct e; [done |]. case_decide; congruence.
Qed.

Lemma declared_one_other id resp :
  chunk_id_of resp ≠ Some id → declared id [resp] = None.
Proof.
  unfold chunk_id_of. simpl.
  destruct (as_chunk resp) as [[[[id' tl] blob] e] |]; simpl; [| done].
  intros Hne. case_decide; congruence.
Qed.

Lemma pending_snoc_other id pre resp :
  chunk_id_of resp ≠ Some id → pending id (pre ++ [resp]) = pending id pre.
Proof.
  intros H. unfold pending, buffer.
  rewrite written_snoc, declared_app, (payload_for_other _ _ H),
    (declared_one_other _ _ H), (right_id_L [] (++)).
  by destruct (declared id pre).
Qed.

Lemma pending_snoc_chunk id tl blob e (m : Meta) pre :
  pending id (pre ++ [chunk id tl blob e m])
  = let tl0 := default tl (declared id pre) in
    let w := written id pre ++ (if e then [] else blob) in
    Some {| bytes_written := len w; total_length := tl0;
            data := w ++ bytearray (tl0 - len w) |}.
Proof.
  unfold pending, buffer. rewrite written_snoc, declared_app.
  unfold payload_for. rewrite as_chunk_chunk. simpl.
  destruct e, (declared id pre); simpl; repeat case_decide; done.
Qed.

Lemma tracks_nil : tracks (Payload:=Payload) (Meta:=Meta) [] ∅.
Proof. intros id. by rewrite lookup_empty. Qed.

(** The entry the body works on, for a chunk that follows a clean run. *)
Lemma ensure_file_tracks pre files id tl :
  tracks pre files →
  (ensure_file files id tl).2
  = {| bytes_written := len (written id pre);
       total_length := default tl (declared id pre);
       data := written id pre
               ++ bytearray (default tl (declared id pre) - len (written id pre)) |}.
Proof.
  intros T. unfold ensure_file. rewrite (T id). unfold pending, buffer.
  destruct (declared id pre) as [tl0 |] eqn:D; simpl; [done |].
  rewrite (declared_None_written _ _ D). unfold FileChunk_init. simpl.
  by rewrite N.sub_0_r.
Qed.

Lemma body_tracks pre files resp :
  tracks pre files → raised (body files resp) = None →
  tracks (pre ++ [resp]) (files_of (body files resp)).
Proof.
  intros T R id.
  destruct (as_chunk resp) as [[[[id' tl] blob] e] |] eqn:C.
  - apply as_chunk_Some in C as [m ->].
    destruct (decide (id' = id)) as [-> | Hne].
    + rewrite pending_snoc_chunk. simpl.
      destruct e.
      * rewrite body_final. simpl. rewrite ensure_file_lookup,
          (ensure_file_tracks pre) by done.
        by rewrite (right_id_L [] (++)).
      * rewrite body_not_final in R |- *. simpl in *.
        rewrite (ensure_file_tracks pre) in R |- * by done. simpl in *.
        destruct (30 * 1024 * 1024 <? _); [done |].
        destruct (8192 <? _); [done |]. simpl.
        rewrite lookup_insert_eq. unfold append_blob. simpl.
        by rewrite setslice_append, len_app, N.sub_add_distr.
    + rewrite pending_snoc_other
        by (unfold chunk_id_of; rewrite as_chunk_chunk; simpl; congruence).
      rewrite <- (T id).
      destruct e.
      * rewrite body_final. simpl. by apply ensure_file_other.
      * rewrite body_not_final in R |- *. simpl in *.
        destruct (30 * 1024 * 1024 <? _); [done |].
        destruct (8192 <? _); [done |]. simpl.
        rewrite lookup_insert_ne by done. by apply ensure_file_other.
  - rewrite pending_snoc_other by (unfold chunk_id_of; by rewrite C).
    rewrite <- (T id). unfold body in *. unfold as_chunk in C.
    case_decide; [| done]. by destruct (message resp).
Qed.

Lemma body_yielded pre files resp :
  tracks pre files → raised (body files resp) = None →
  yielded (body files resp) = emitted pre resp.
Proof.
  intros T R. unfold emitted.
  destruct (as_chunk resp) as [[[[id tl] blob] e] |] eqn:C.
  - apply as_chunk_Some in C as [m ->].
    destruct e.
    + rewrite body_final. simpl. rewrite (ensure_file_tracks pre) by done.
      simpl. unfold buffer. rewrite written_snoc, declared_app.
      unfold payload_for. simpl. rewrite (right_id_L [] (++)).
      destruct (declared id pre); simpl; [done |]. by case_decide.
    + rewrite body_not_final in R |- *. simpl in *.
      destruct (30 * 1024 * 1024 <? _); [done |].
      by destruct (8192 <? _).
  - unfold body in *. unfold as_chunk in C.
    case_decide; [| done]. by destruct (message resp).
Qed.

Lemma body_accepted pre files resp :
  tracks pre files → accepted pre resp → raised (body files resp) = None.
Proof.
  intros T [W A].
  destruct (as_chunk resp) as [[[[id tl] blob] e] |] eqn:C.
  - specialize (A id tl blob). apply as_chunk_Some in C as C'.
    destruct C' as [m ->]. destruct e.
    + by rewrite body_final.
    + destruct (A C) as [A1 A2]. rewrite body_not_final. simpl.
      rewrite (ensure_file_tracks pre) by done. simpl.
      rewrite (proj2 (N.ltb_ge _ _)) by done.
      by rewrite (proj2 (N.ltb_ge _ _)) by done.
  - rewrite body_other; [done |]. intros Ht. destruct (W Ht) as [? ?]. congruence.
Qed.

(** A run that raised nothing leaves the dictionary [tracks] describes and
    yields what [reassembled] says. *)
Lemma loop_clean pre files evs :
  tracks pre files → raised (loop files evs) = None →
  tracks (pre ++ evs) (files_of (loop files evs))
  ∧ yielded (loop files evs) = reassembled pre evs.
Proof.
  revert pre files. induction evs as [| resp evs IH]; intros pre files T R;
    simpl in *.
  - by rewrite (right_id_L [] (++)).
  - destruct (raised (body files resp)) eqn:E; simpl in *; [congruence |].
    destruct (IH (pre ++ [resp]) (files_of (body files resp))) as [T' Y'];
      [by apply body_tracks | done |].
    rewrite <- (assoc_L (++)) in T'. split; [done |].
    by rewrite Y', (body_yielded pre).
Qed.

(** A stream that keeps within both limits and passes the [assert] runs
    through without an exception. *)
Lemma loop_accepted pre files evs :
  tracks pre files → Forall well_typed evs → chunks_small evs →
  (∀ id, len (written id (pre ++ evs)) ≤ 30 * 1024 * 1024) →
  raised (loop files evs) = None.
Proof.
  intros T W. revert pre files T.
  induction W as [| resp evs Wr _ IH]; intros pre files T S B; simpl; [done |].
  apply Forall_cons in S as [Sr S].
  assert (accepted pre resp) as A.
  { split; [done |]. intros id tl blob C. split; [| by eapply Sr].
    specialize (B id). rewrite (written_app id pre (resp :: evs)) in B.
    change (resp :: evs) with ([resp] ++ evs) in B.
    rewrite (written_app id [resp] evs), !len_app in B.
    unfold written in B at 2. simpl in B. unfold payload_for in B.
    rewrite C, decide_True, (right_id_L [] (++)) in B by done. lia. }
  rewrite (body_accepted pre) by done. simpl.
  apply (IH (pre ++ [resp]));
    [by apply body_tracks, (body_accepted pre) | done |].
  intros id. by rewrite <- (assoc_L (++)).
Qed.

Lemma invoke_clean evs :
  raised (invoke evs) = None →
  tracks evs (files_of (invoke evs)) ∧ yielded (invoke evs) = reassembled [] evs.
Proof. intros R. by apply (loop_clean [] ∅ evs tracks_nil). Qed.

Lemma invoke_accepted evs :
  Forall well_typed evs → chunks_small evs → blobs_small evs →
  raised (invoke evs) = None.
Proof. intros W S B. by apply (loop_accepted [] ∅ evs tracks_nil). Qed.

(** The entry a chunk of [id] finds after a clean run of [invoke]. *)
Lemma invoke_ensure_file pre id tl :
  raised (invoke pre) = None →
  (ensure_file (files_of (invoke pre)) id tl).2
  = {| bytes_written := len (written id pre);
       total_length := default tl (declared id pre);
       data := written id pre
               ++ bytearray (default tl (declared id pre) - len (written id pre)) |}.
Proof. intros R. apply ensure_file_tracks. by apply invoke_clean. Qed.

(** A chunk not marked [end] after a clean run of [invoke]: the 30 MiB
    guard is tried first, on the bytes written for the id so far. *)
Lemma body_after_clean pre id tl blob (m : Meta) :
  raised (invoke pre) = None →
  body (Payload:=Payload) (files_of (invoke pre)) (chunk id tl blob false m)
  = if 30 * 1024 * 1024 <? len (written id pre) + len blob then
      mkRun (delete id (files_of (invoke pre))) [] (Some BlobTooLarge)
    else if 8192 <? len blob then
      mkRun (ensure_file (files_of (invoke pre)) id tl).1 [] (Some ChunkTooLarge)
    else
      mkRun (<[id := append_blob (ensure_file (files_of (invoke pre)) id tl).2 blob]>
               (ensure_file (files_of (invoke pre)) id tl).1) [] None.
Proof.
  intros R. rewrite body_not_final. cbv zeta.
  rewrite delete_ensure_file.
  by rewrite (invoke_ensure_file pre id tl R) at 1.
Qed.

Lemma invoke_snoc_raised pre resp rest files' e :
  raised (invoke pre) = None →
  body (files_of (invoke pre)) resp = mkRun files' [] (Some e) →
  invoke (pre ++ resp :: rest) = mkRun files' (yielded (invoke pre)) (Some e).
Proof.
  intros R B. unfold invoke in *. rewrite loop_app. cbv zeta. rewrite R.
  rewrite (loop_cons_raised _ _ _ _ _ _ B). cbn [files_of yielded raised].
  by rewrite (right_id_L [] (++)).
Qed.

(** *** Leaving the chunks of one id out *)

Lemma without_cons_in id resp evs :
  chunk_id_of resp = Some id → without id (resp :: evs) = without id evs.
Proof. intros C. unfold without. rewrite filter_cons_False; [done |]. by intros ?. Qed.

Lemma without_cons_out id resp evs :
  chunk_id_of resp ≠ Some id → without id (resp :: evs) = resp :: without id evs.
Proof. intros C. unfold without. by rewrite filter_cons_True. Qed.

Lemma without_snoc_in id pre resp :
  chunk_id_of resp = Some id → without id (pre ++ [resp]) = without id pre.
Proof.
  intros C. unfold without. rewrite filter_app.
  fold (without id [resp]). rewrite (without_cons_in _ _ _ C).
  apply (right_id_L [] (++)).
Qed.

Lemma without_snoc_out id pre resp :
  chunk_id_of resp ≠ Some id → without id (pre ++ [resp]) = without id pre ++ [resp].
Proof.
  intros C. unfold without. rewrite filter_app.
  fold (without id [resp]). by rewrite (without_cons_out _ _ _ C).
Qed.

Lemma payload_for_in id' id resp :
  id' ≠ id → chunk_id_of resp = Some id → payload_for id' resp = [].
Proof. intros Hne C. apply payload_for_other. congruence. Qed.

Lemma written_without_other id' id evs :
  id' ≠ id → written id' (without id evs) = written id' evs.
Proof.
  intros Hne. induction evs as [| resp evs IH]; [done |].
  destruct (decide (chunk_id_of resp = Some id)) as [C | C].
  - rewrite (without_cons_in _ _ _ C), IH. unfold written. simpl.
    by rewrite (payload_for_in _ _ _ Hne C).
  - rewrite (without_cons_out _ _ _ C). unfold written in *. simpl.
    by rewrite IH.
Qed.

Lemma written_without_same id evs : written id (without id evs) = [].
Proof.
  induction evs as [| resp evs IH]; [done |].
  destruct (decide (chunk_id_of resp = Some id)) as [C | C].
  - by rewrite (without_cons_in _ _ _ C).
  - rewrite (without_cons_out _ _ _ C). unfold written in *. simpl.
    by rewrite IH, (payload_for_other _ _ C).
Qed.

Lemma declared_without_other id' id evs :
  id' ≠ id → declared id' (without id evs) = declared id' evs.
Proof.
  intros Hne. induction evs as [| resp evs IH]; [done |].
  destruct (decide (chunk_id_of resp = Some id)) as [C | C].
  - rewrite (without_cons_in _ _ _ C), IH. simpl. unfold chunk_id_of in C.
    destruct (as_chunk resp) as [[[[id0 tl] blob] e] |]; simpl in *; [| done].
    case_decide; congruence.
  - rewrite (without_cons_out _ _ _ C). simpl. by rewrite IH.
Qed.

Lemma buffer_without_other id' id evs :
  id' ≠ id → buffer id' (without id evs) = buffer id' evs.
Proof.
  intros Hne. unfold buffer.
  by rewrite written_without_other, declared_without_other.
Qed.

Lemma emitted_without id pre resp :
  chunk_id_of resp ≠ Some id →
  emitted (without id pre) resp = emitted pre resp.
Proof.
  intros C. unfold emitted. unfold chunk_id_of in C.
  destruct (as_chunk resp) as [[[[id' tl] blob] e] |] eqn:E; simpl in *; [| done].
  destruct e; [| done].
  assert (id' ≠ id) as Hne by congruence.
  rewrite <- (buffer_without_other id' id (pre ++ [resp])) by done.
  rewrite without_snoc_out; [done |].
  unfold chunk_id_of. rewrite E. simpl. congruence.
Qed.

Lemma emitted_not_final id pre resp :
  chunk_id_of resp = Some id →
  (∀ tl blob, as_chunk resp ≠ Some (id, tl, blob, true)) →
  emitted pre resp = [].
Proof.
  unfold chunk_id_of, emitted. intros C F.
  destruct (as_chunk resp) as [[[[id' tl] blob] e] |]; simpl in *; [| done].
  destruct e; [| done]. injection C as ->. by destruct (F tl blob).
Qed.

Lemma reassembled_without id pre evs :
  never_final id evs →
  reassembled (without id pre) (without id evs) = reassembled pre evs.
Proof.
  intros F. revert pre. induction F as [| resp evs Fr _ IH]; intros pre;
    [done |].
  destruct (decide (chunk_id_of resp = Some id)) as [C | C].
  - rewrite (without_cons_in _ _ _ C). simpl.
    rewrite (emitted_not_final id) by done. simpl.
    by rewrite <- IH, without_snoc_in.
  - rewrite (without_cons_out _ _ _ C). simpl.
    by rewrite emitted_without, <- IH, without_snoc_out.
Qed.

Lemma without_Forall (P : ToolInvokeMessage Payload Meta → Prop) id evs :
  Forall P evs → Forall P (without id evs).
Proof.
  intros H. apply Forall_forall. intros resp Hin.
  apply list_elem_of_filter in Hin as [_ Hin].
  by apply (proj1 (Forall_forall _ _) H).
Qed.

Lemma without_blobs_small id evs :
  blobs_small evs → blobs_small (without id evs).
Proof.
  intros B id'. destruct (decide (id' = id)) as [-> | Hne].
  - by rewrite written_without_same.
  - rewrite written_without_other by done. apply B.
Qed.

Lemma append_blob_init tl blob :
  append_blob (FileChunk_init tl) blob
  = {| bytes_written := len blob; total_length := tl;
       data := blob ++ bytearray (tl - len blob) |}.
Proof.
  unfold append_blob, FileChunk_init. simpl. f_equal.
  exact (setslice_append [] blob tl).
Qed.

(** *** When an entry goes away *)

(** One pass through the body takes an entry out of [files] only in the
    30 MiB guard, on a chunk of that id that is not marked [end]. *)
Lemma body_removes files resp id :
  is_Some (files !! id) → files_of (body files resp) !! id = None →
  raised (body files resp) = Some BlobTooLarge
  ∧ ∃ tl blob m, resp = chunk id tl blob false m.
Proof.
  intros [fc0 L] N.
  destruct (as_chunk resp) as [[[[id0 tl] blob] e] |] eqn:C.
  - apply as_chunk_Some in C as [m ->].
    assert (id0 ≠ id → (ensure_file files id0 tl).1 !! id = Some fc0) as Ho.
    { intros Hne. by rewrite ensure_file_other. }
    assert (id0 = id → is_Some ((ensure_file files id0 tl).1 !! id)) as Hs.
    { intros ->. rewrite ensure_file_lookup. by eexists. }
    destruct e.
    + rewrite body_final in N. simpl in N.
      destruct (decide (id0 = id)) as [E | E].
      * destruct (Hs E) as [? Hx]. congruence.
      * rewrite (Ho E) in N. done.
    + rewrite body_not_final in N |- *. cbv zeta in *.
      destruct (30 * 1024 * 1024 <? _); simpl in *.
      { destruct (decide (id0 = id)) as [-> | E]; [by eauto |].
        rewrite lookup_delete_ne, (Ho E) in N by done. done. }
      destruct (8192 <? _); simpl in *.
      { destruct (decide (id0 = id)) as [E | E].
        - destruct (Hs E) as [? Hx]. congruence.
        - rewrite (Ho E) in N. done. }
      destruct (decide (id0 = id)) as [-> | E].
      * by rewrite lookup_insert_eq in N.
      * rewrite lookup_insert_ne, (Ho E) in N by done. done.
  - unfold body, as_chunk in *. case_decide.
    + destruct (message resp); simpl in *; congruence.
    + simpl in N. congruence.
Qed.

(** So does a whole run: an entry that was there and is gone at the end
    was deleted at a chunk of its id that raised [BlobTooLarge], and the
    run went no further. *)
Lemma loop_removes files evs id :
  is_Some (files !! id) → files_of (loop files evs) !! id = None →
  raised (loop files evs) = Some BlobTooLarge
  ∧ ∃ pre tl blob m rest,
      evs = pre ++ chunk id tl blob false m :: rest
      ∧ raised (loop files pre) = None
      ∧ raised (loop files (pre ++ [chunk id tl blob false m]))
        = Some BlobTooLarge.
Proof.
  revert files. induction evs as [| resp evs IH]; intros files S N.
  - simpl in N. destruct S as [? S]. congruence.
  - simpl in N |- *.
    destruct (raised (body files resp)) as [e |] eqn:R.
    + destruct (body_removes files resp id S N) as (Rb & tl & blob & m & ->).
      split; [congruence |]. exists [], tl, blob, m, evs.
      split; [done | split; [done |]]. simpl. by rewrite Rb.
    + simpl in N.
      assert (is_Some (files_of (body files resp) !! id)) as S'.
      { destruct (files_of (body files resp) !! id) eqn:L; [by eexists |].
        destruct (body_removes files resp id S L) as [Rb _]. congruence. }
      destruct (IH _ S' N) as (Rl & pre & tl & blob & m & rest & -> & Rp & Rc).
      split; [done |]. exists (resp :: pre), tl, blob, m, rest.
      split; [done |]. simpl. rewrite R. simpl. by split.
Qed.

End Loop_facts.

(** ** Streams of equal chunks *)

Section Equal_chunks.

Context {Payload Meta : Type}.

Lemma written_replicate id tl blob (m : Meta) (n : nat) :
  len (written id (replicate n (chunk (Payload:=Payload) id tl blob false m)))
  = N.of_nat n * len blob.
Proof.
  induction n as [| n IH]; [done |].
  change (replicate (S n) ?c) with ([c] ++ replicate n c).
  rewrite written_app, len_app, IH. unfold written. simpl.
  unfold payload_for. rewrite as_chunk_chunk, decide_True by done.
  rewrite (right_id_L [] (++)). lia.
Qed.

Lemma written_replicate_other id' id tl blob (m : Meta) (n : nat) :
  id' ≠ id →
  written id' (replicate n (chunk (Payload:=Payload) id tl blob false m)) = [].
Proof.
  intros Hne. induction n as [| n IH]; [done |].
  change (replicate (S n) ?c) with ([c] ++ replicate n c).
  rewrite written_app, IH. unfold written. simpl.
  unfold payload_for. rewrite as_chunk_chunk, decide_False by done. done.
Qed.

Lemma well_typed_chunk id tl blob e (m : Meta) :
  well_typed (chunk (Payload:=Payload) id tl blob e m).
Proof. intros _. by rewrite as_chunk_chunk. Qed.

Lemma chunks_small_replicate id tl blob (m : Meta) (n : nat) :
  len blob ≤ 8192 →
  chunks_small (replicate n (chunk (Payload:=Payload) id tl blob false m)).
Proof.
  intros Hle. apply Forall_replicate. intros id' tl' blob'.
  rewrite as_chunk_chunk. by intros [= _ _ <-].
Qed.

Lemma well_typed_forwarded (resp : ToolInvokeMessage Payload Meta) :
  forwarded resp → well_typed resp.
Proof. by intros F T. Qed.

(** A final chunk after a clean run raises nothing. *)
Lemma invoke_final_clean (pre : list (ToolInvokeMessage Payload Meta))
    id tl blob (m : Meta) :
  raised (invoke pre) = None →
  raised (invoke (pre ++ [chunk id tl blob true m])) = None.
Proof.
  intros R. unfold invoke in *. rewrite loop_app. cbv zeta. rewrite R.
  by rewrite (loop_cons_clean _ _ _ _ _ (body_final _ _ _ _ _)).
Qed.

End Equal_chunks.

Lemma len_part_payload n : len (replicate (N.to_nat n) Byte.x41) = n.
Proof. rewrite len_replicate. apply N2Nat.id. Qed.

Lemma stream_30MiB_written :
  len (written "x" stream_30MiB) = 30 * 1024 * 1024.
Proof.
  unfold stream_30MiB, part.
  by rewrite written_replicate, len_part_payload.
Qed.

Lemma stream_30MiB_clean : raised (invoke stream_30MiB) = None.
Proof.
  apply invoke_accepted.
  - apply Forall_replicate, well_typed_chunk.
  - apply chunks_small_replicate. by rewrite len_part_payload.
  - intros id. destruct (decide (id = "x")) as [-> | Hne].
    + by rewrite stream_30MiB_written.
    + unfold stream_30MiB, part. by rewrite written_replicate_other.
Qed.

(** ** The claims *)

Section Claims.

Context {Payload Meta : Type}.
Implicit Types (resp : ToolInvokeMessage Payload Meta).
Implicit Types (evs pre mid post rest : list (ToolInvokeMessage Payload Meta)).
Implicit Types (files : gmap string FileChunk).

(** C6.  Once a run has raised (in particular [BlobTooLarge] or
    [ChunkTooLarge], the two size-limit errors), the generator is over:
    whatever follows in the input stream is not read, so the run over the
    longer stream is the run over the stream up to the fault, with the same
    messages yielded, the same exception and the same [files]. *)
Theorem invoke_stops_at_fault evs rest e :
  raised (invoke evs) = Some e → invoke (evs ++ rest) = invoke evs.
Proof. apply loop_raised_app. Qed.

(** C7.  A stream without [BLOB_CHUNK] messages is yielded as it is, in
    the same order, and the run raises nothing. *)
Theorem invoke_pass_through evs :
  Forall forwarded evs → yielded (invoke evs) = evs ∧ raised (invoke evs) = None.
Proof. intros F. unfold invoke. by rewrite (loop_pass_through _ _ F). Qed.

(** C1, as the code has it.  In a stream that has, among forwarded
    messages, the chunk [{id="x", data=b"AB", end=false}] and later the
    chunk [{id="x", data=b"CD", end=true}], the loop yields one [BLOB]
    message, at the place of the final chunk.  Its content is the buffer
    as the first chunk left it: [b"AB"] followed by the zero bytes that are
    left of the [total_length] the first chunk declared.  The payload of
    the chunk marked [end] is not written. *)
Theorem invoke_two_chunks pre mid post tl1 tl2 (m1 m2 : Meta) :
  Forall forwarded pre → Forall forwarded mid → Forall forwarded post →
  let r := invoke (pre ++ chunk "x" tl1 AB false m1
                       :: mid ++ chunk "x" tl2 CD true m2 :: post) in
  yielded r = pre ++ mid ++ blob_message (AB ++ bytearray (tl1 - 2)) m2 :: post
  ∧ raised r = None.
Proof.
  intros Fpre Fmid Fpost. simpl. unfold invoke.
  rewrite (loop_forwarded_app _ _ _ Fpre).
  rewrite (loop_cons_clean _ _ _
             (<["x" := append_blob (FileChunk_init tl1) AB]>
                (<["x" := FileChunk_init tl1]> ∅)) []);
    [| by rewrite body_not_final, ensure_file_absent].
  rewrite (loop_forwarded_app _ _ _ Fmid).
  rewrite (loop_cons_clean _ _ _
             (<["x" := append_blob (FileChunk_init tl1) AB]>
                (<["x" := FileChunk_init tl1]> ∅))
             [blob_message (AB ++ bytearray (tl1 - 2)) m2]).
  - by rewrite (loop_pass_through _ _ Fpost).
  - rewrite body_final, (ensure_file_present _ _ _ _ (lookup_insert_eq _ _ _)).
    by rewrite append_blob_init.
Qed.

(** C2, as the code has it.  When the only [BLOB_CHUNK] message of a
    stream is marked [end], the loop yields exactly one [BLOB] message for
    it, in its place among the forwarded messages, and raises nothing.  The
    content of that message is the freshly allocated buffer, that is
    [total_length] zero bytes: the chunk's own payload is not copied into
    it, whatever its length. *)
Theorem invoke_single_final_chunk pre post id tl blob (m : Meta) :
  Forall forwarded pre → Forall forwarded post →
  let r := invoke (pre ++ chunk id tl blob true m :: post) in
  yielded r = pre ++ blob_message (bytearray tl) m :: post
  ∧ len (bytearray tl) = tl
  ∧ raised r = None.
Proof.
  intros Fpre Fpost. simpl. unfold invoke.
  rewrite (loop_forwarded_app _ _ _ Fpre).
  rewrite (loop_cons_clean _ _ _ (<[id := FileChunk_init tl]> ∅)
             [blob_message (bytearray tl) m]);
    [| by rewrite body_final, ensure_file_absent].
  rewrite (loop_pass_through _ _ Fpost). simpl.
  by rewrite len_bytearray.
Qed.

(** C3, as the code has it.  Both guards stand in the branch of the chunks
    not marked [end], the 30 MiB guard first.  So a chunk that is not
    final, carries more than 8192 bytes and keeps the bytes written for its
    id within 30 MiB raises [ChunkTooLarge]: nothing is written (the entry
    of the id is the one found, or the fresh one when the id is new),
    nothing is yielded for it, and the rest of the stream is not read. *)
Theorem invoke_chunk_too_large pre id tl blob (m : Meta) rest :
  raised (invoke pre) = None →
  8192 < len blob →
  len (written id pre) + len blob ≤ 30 * 1024 * 1024 →
  invoke (pre ++ chunk id tl blob false m :: rest)
  = mkRun (ensure_file (files_of (invoke pre)) id tl).1
      (yielded (invoke pre)) (Some ChunkTooLarge).
Proof.
  intros R Hbig Hsum. apply (invoke_snoc_raised _ _ _ _ _ R).
  rewrite (body_after_clean _ _ _ _ _ R).
  apply N.ltb_ge in Hsum. apply N.ltb_lt in Hbig. by rewrite Hsum, Hbig.
Qed.

(** C4, as the code has it.  The branch of the chunk marked [end] yields
    the [BLOB] message and leaves [files] alone: the entry of the id (the
    one found, or the one just created) stays in the dictionary with the
    buffer that was yielded, and a later chunk of the same id finds it
    again.  A dictionary holds at most one entry per chunk id.  And an
    entry is only removed by the cumulative-size fault: whatever stream
    the loop goes on with, an entry that is in [files] and is gone at the
    end of the run was deleted at a chunk of its id, not marked [end], that
    raised [BlobTooLarge], where the run stopped. *)
Theorem body_final_keeps_entry files id tl blob (m : Meta) :
  let r := body (Payload:=Payload) files (chunk id tl blob true m) in
  let fc := (ensure_file files id tl).2 in
  yielded r = [blob_message (data fc) m]
  ∧ raised r = None
  ∧ files_of r !! id = Some fc
  ∧ (∀ id', id ≠ id' → files_of r !! id' = files !! id')
  ∧ (∀ tl', ensure_file (files_of r) id tl' = (files_of r, fc))
  ∧ (∀ evs id',
       is_Some (files !! id') → files_of (loop files evs) !! id' = None →
       raised (loop files evs) = Some BlobTooLarge
       ∧ ∃ pre tl' blob' (m' : Meta) rest,
           evs = pre ++ chunk id' tl' blob' false m' :: rest
           ∧ raised (loop files pre) = None
           ∧ raised (loop files (pre ++ [chunk id' tl' blob' false m']))
             = Some BlobTooLarge).
Proof.
  simpl. rewrite body_final. simpl.
  pose proof (ensure_file_lookup files id tl) as L.
  split; [done | split; [done | split; [done | split; [| split]]]].
  - intros id' Hne. by apply ensure_file_other.
  - intros tl'. by apply ensure_file_present.
  - intros evs id'. apply loop_removes.
Qed.

(** C5, as the code has it.  The 30 MiB guard stands in the branch of the
    chunks not marked [end].  A chunk that is not final and would bring the
    bytes written for its id above 30 * 1024 * 1024 makes the loop delete
    the entry of that id and raise [BlobTooLarge] at that chunk, however
    small the chunk is: nothing is yielded for it and the rest of the
    stream is not read. *)
Theorem invoke_blob_too_large pre id tl blob (m : Meta) rest :
  raised (invoke pre) = None →
  30 * 1024 * 1024 < len (written id pre) + len blob →
  invoke (pre ++ chunk id tl blob false m :: rest)
  = mkRun (delete id (files_of (invoke pre)))
      (yielded (invoke pre)) (Some BlobTooLarge).
Proof.
  intros R Hsum. apply (invoke_snoc_raised _ _ _ _ _ R).
  rewrite (body_after_clean _ _ _ _ _ R).
  apply N.ltb_lt in Hsum. by rewrite Hsum.
Qed.

(** C8.  A stream that ends while some chunk ids have only had chunks not
    marked [end] is read to its end without an exception (no message of it
    trips the [assert] or a size guard: those faults are the matter of the
    guards, not of the end of the stream).  For such an id the loop yields
    nothing: the messages yielded are those of the same stream with the
    chunks of that id left out.  Nothing is done about the entry of the id
    at the end of the stream: it is left in [files] as the chunks made it,
    and goes away with the generator. *)
Theorem invoke_abandoned_blobs evs :
  Forall well_typed evs → chunks_small evs → blobs_small evs →
  raised (invoke evs) = None
  ∧ ∀ id, never_final id evs →
      yielded (invoke evs) = yielded (invoke (without id evs))
      ∧ files_of (invoke evs) !! id = pending id evs.
Proof.
  intros W S B.
  pose proof (invoke_accepted evs W S B) as R. split; [done |].
  intros id F. destruct (invoke_clean evs R) as [T Y].
  split; [| by apply T].
  assert (raised (invoke (without id evs)) = None) as R'.
  { apply invoke_accepted; [by apply without_Forall .. |].
    by apply without_blobs_small. }
  destruct (invoke_clean _ R') as [_ Y']. rewrite Y, Y'.
  symmetry. by apply (reassembled_without id []).
Qed.

(** C9.  The [BLOB] message yielded for a chunk marked [end] carries the
    [meta] of that very chunk, whatever the [meta] of the chunks (of this
    id or another) that came before it. *)
Theorem invoke_blob_meta pre id tl blob (m : Meta) rest :
  raised (invoke pre) = None →
  ∃ buf tail,
    yielded (invoke (pre ++ chunk id tl blob true m :: rest))
    = yielded (invoke pre) ++ blob_message buf m :: tail.
Proof.
  intros R. unfold invoke in *. rewrite loop_app. simpl. rewrite R.
  rewrite body_final. simpl. by eexists _, _.
Qed.

(** C10.  The buffer of a chunk id is allocated with the [total_length]
    the first chunk seen for that id declares (the final chunk itself when
    none came before), all zero.  When the bytes written for the id are at
    most that many, the [BLOB] message yielded at the final chunk has
    exactly that length: it starts with the bytes written, and every
    position after them holds the zero byte. *)
Theorem invoke_blob_zero_filled pre id tl blob (m : Meta) rest :
  raised (invoke pre) = None →
  let tl0 := default tl (declared id pre) in
  let w := written id pre in
  len w ≤ tl0 →
  ∃ buf tail,
    yielded (invoke (pre ++ chunk id tl blob true m :: rest))
    = yielded (invoke pre) ++ blob_message buf m :: tail
    ∧ len buf = tl0
    ∧ take (length w) buf = w
    ∧ ∀ i : nat, (length w ≤ i < N.to_nat tl0)%nat → buf !! i = Some Byte.x00.
Proof.
  intros R tl0 w Hle.
  exists (w ++ bytearray (tl0 - len w)). eexists. split; [| split; [| split]].
  - unfold invoke in *. rewrite loop_app. simpl. rewrite R.
    fold (invoke pre). rewrite body_final. simpl.
    by rewrite (invoke_ensure_file pre).
  - rewrite len_app, len_bytearray. lia.
  - by rewrite take_app_length.
  - intros i Hi. rewrite lookup_app_r by lia. unfold bytearray.
    apply lookup_replicate_2. unfold len in *. lia.
Qed.

(** X1.  Chunks of two ids that arrive interleaved are collected apart: the
    [BLOB] message of each id holds the bytes of that id's chunk that was
    not final, then the zero bytes left of that id's [total_length], and
    carries the [meta] of that id's final chunk. *)
Theorem invoke_interleaved x y tlx tly tlx' tly' a b c d (m1 m2 m3 m4 : Meta) :
  x ≠ y → len a ≤ 8192 → len b ≤ 8192 →
  let r := invoke (Payload:=Payload)
             [chunk x tlx a false m1; chunk y tly b false m2;
              chunk x tlx' c true m3; chunk y tly' d true m4] in
  yielded r = [blob_message (a ++ bytearray (tlx - len a)) m3;
               blob_message (b ++ bytearray (tly - len b)) m4]
  ∧ raised r = None.
Proof.
  intros Hxy Ha Hb. cbv zeta.
  assert (y ≠ x) as Hyx by congruence.
  assert (raised (invoke (Payload:=Payload)
            [chunk x tlx a false m1; chunk y tly b false m2;
             chunk x tlx' c true m3; chunk y tly' d true m4]) = None) as R.
  { apply invoke_accepted.
    - repeat apply Forall_cons_2; try apply well_typed_chunk. done.
    - repeat apply Forall_cons_2; try done; intros id tl blob;
        rewrite as_chunk_chunk; by intros [= _ _ <-].
    - intros id. unfold written, payload_for. simpl.
      repeat case_decide; simplify_eq; rewrite ?len_app, ?len_nil; lia. }
  split; [| done]. rewrite (proj2 (invoke_clean _ R)).
  unfold reassembled, emitted, buffer, written, payload_for. simpl.
  repeat (case_decide; try congruence). simpl.
  by rewrite !(right_id_L [] (++)).
Qed.

(** X2.  A stream in which no message trips the [assert] or a size guard
    is read to its end, and the run is the one the stream-side reading
    describes: the messages yielded are [reassembled], and the entry of
    every chunk id is [pending]: the bytes of its chunks that were not
    final, in the buffer sized by the first chunk seen for it. *)
Theorem invoke_reassembles evs :
  Forall well_typed evs → chunks_small evs → blobs_small evs →
  raised (invoke evs) = None
  ∧ yielded (invoke evs) = reassembled [] evs
  ∧ ∀ id, files_of (invoke evs) !! id = pending id evs.
Proof.
  intros W S B. pose proof (invoke_accepted evs W S B) as R.
  destruct (invoke_clean evs R) as [T Y]. by repeat split.
Qed.

End Claims.

(** ** The claims on sample streams *)

(** C1 as stated fails: with the two chunks declared as 4 bytes, the
    [BLOB] message holds [b"AB"] and two zero bytes, not [b"ABCD"]. *)
Lemma two_chunks_not_ABCD :
  yielded (invoke two_chunks)
  = [blob_message [Byte.x41; Byte.x42; Byte.x00; Byte.x00] "last"]
  ∧ yielded (invoke two_chunks) ≠ [blob_message (AB ++ CD) "last"].
Proof. split; [by vm_compute | by vm_compute]. Qed.

Lemma invoke_two_chunks_witness :
  Forall forwarded [text "a" "1"] ∧ Forall forwarded [text "b" "2"]
  ∧ Forall forwarded [text "c" "3"]
  ∧ yielded (invoke ([text "a" "1"] ++ chunk "x" 4 AB false "first"
                       :: [text "b" "2"] ++ chunk "x" 9 CD true "last"
                       :: [text "c" "3"]))
    = [text "a" "1"] ++ [text "b" "2"]
      ++ blob_message (AB ++ bytearray (4 - 2)) "last" :: [text "c" "3"].
Proof.
  assert (∀ s m, Forall forwarded [text s m]) as F
    by (intros s m; by apply Forall_singleton).
  split; [apply F | split; [apply F | split; [apply F |]]].
  apply (invoke_two_chunks [text "a" "1"] [text "b" "2"] [text "c" "3"]
           4 9 "first" "last"); apply F.
Defined.

(** C2 as stated fails: a single final chunk carrying [b"AB"], declared as
    2 bytes, gives a [BLOB] message of two zero bytes. *)
Lemma single_final_chunk_not_its_data :
  yielded (invoke [chunk "x" 2 AB true "last" : Msg])
  = [blob_message [Byte.x00; Byte.x00] "last"]
  ∧ yielded (invoke [chunk "x" 2 AB true "last" : Msg])
    ≠ [blob_message AB "last"].
Proof. split; [by vm_compute | by vm_compute]. Qed.

Lemma invoke_single_final_chunk_witness :
  Forall forwarded [text "a" "1"] ∧ Forall forwarded [text "c" "3"]
  ∧ yielded (invoke ([text "a" "1"] ++ chunk "x" 2 AB true "last"
                       :: [text "c" "3"]))
    = [text "a" "1"] ++ blob_message (bytearray 2) "last" :: [text "c" "3"].
Proof.
  assert (∀ s m, Forall forwarded [text s m]) as F
    by (intros s m; by apply Forall_singleton).
  split; [apply F | split; [apply F |]].
  apply (invoke_single_final_chunk [text "a" "1"] [text "c" "3"]
           "x" 2 AB "last"); apply F.
Defined.

(** C3 as stated fails: a chunk of 8193 bytes that is marked [end] raises
    nothing, and its [BLOB] message is yielded.  And a chunk of 8193 bytes
    that is not final, coming after the 30 MiB of [stream_30MiB], raises
    [BlobTooLarge], the guard that is tried first. *)
Lemma chunk_of_8193_bytes_not_too_large :
  8192 < len (replicate (N.to_nat 8193) Byte.x41)
  ∧ raised (invoke [chunk "x" 0 (replicate (N.to_nat 8193) Byte.x41) true "last" : Msg])
    = None
  ∧ yielded (invoke [chunk "x" 0 (replicate (N.to_nat 8193) Byte.x41) true "last" : Msg])
    = [blob_message [] "last"]
  ∧ raised (invoke (stream_30MiB ++ [part "x" 8193])) = Some BlobTooLarge.
Proof.
  split; [by vm_compute | split; [by vm_compute | split; [by vm_compute |]]].
  rewrite (invoke_snoc_raised stream_30MiB (part "x" 8193) []
             (delete "x" (files_of (invoke stream_30MiB))) BlobTooLarge
             stream_30MiB_clean); [done |].
  unfold part. rewrite (body_after_clean _ _ _ _ _ stream_30MiB_clean).
  by rewrite stream_30MiB_written, len_part_payload.
Qed.

Lemma invoke_chunk_too_large_witness :
  raised (invoke ([] : list Msg)) = None
  ∧ 8192 < len (replicate (N.to_nat 8193) Byte.x41)
  ∧ len (written "x" ([] : list Msg)) + len (replicate (N.to_nat 8193) Byte.x41)
    ≤ 30 * 1024 * 1024
  ∧ invoke ([] ++ part "x" 8193 :: [text "after" "t"])
    = mkRun (ensure_file (files_of (invoke ([] : list Msg))) "x" 0).1
        (yielded (invoke ([] : list Msg))) (Some ChunkTooLarge).
Proof.
  assert (8192 < len (replicate (N.to_nat 8193) Byte.x41)) as Hbig
    by (by rewrite len_part_payload).
  assert (len (written "x" ([] : list Msg))
          + len (replicate (N.to_nat 8193) Byte.x41) ≤ 30 * 1024 * 1024) as Hsum
    by (by rewrite len_part_payload).
  split; [done | split; [done | split; [done |]]].
  by apply (invoke_chunk_too_large [] "x" 0 _ "part" [text "after" "t"]).
Defined.

(** C4 as stated fails: after the final chunk of ["x"] the entry of ["x"]
    is still in [files], and a chunk of ["x"] that comes later is written
    into that same buffer, which a second final chunk yields again. *)
Lemma entry_kept_after_final_chunk :
  files_of (invoke [chunk "x" 2 [] true "last" : Msg]) !! "x"
  = Some (FileChunk_init 2)
  ∧ yielded (invoke [chunk "x" 2 [] true "m1"; chunk "x" 7 AB false "m2";
                     chunk "x" 7 [] true "m3" : Msg])
    = [blob_message [Byte.x00; Byte.x00] "m1"; blob_message AB "m3"].
Proof. split; by vm_compute. Qed.

(** C5 as stated fails: after 3840 chunks of 8192 bytes, which fill the
    30 MiB exactly, a chunk of one byte that is marked [end] would cross
    the limit, and the run raises nothing. *)
Lemma final_chunk_crossing_30MiB_passes :
  30 * 1024 * 1024 < len (written "x" stream_30MiB) + len [Byte.x00]
  ∧ raised (invoke (stream_30MiB ++ [chunk "x" 0 [Byte.x00] true "last"]))
    = None.
Proof.
  split.
  - by rewrite stream_30MiB_written.
  - apply invoke_final_clean, stream_30MiB_clean.
Qed.

Lemma invoke_blob_too_large_witness :
  raised (invoke stream_30MiB) = None
  ∧ 30 * 1024 * 1024 < len (written "x" stream_30MiB) + len [Byte.x00]
  ∧ len [Byte.x00] ≤ 8192
  ∧ invoke (stream_30MiB
              ++ chunk "x" 0 [Byte.x00] false "over" :: [text "after" "t"])
    = mkRun (delete "x" (files_of (invoke stream_30MiB)))
        (yielded (invoke stream_30MiB)) (Some BlobTooLarge).
Proof.
  assert (30 * 1024 * 1024 < len (written "x" stream_30MiB) + len [Byte.x00])
    as Hsum by (by rewrite stream_30MiB_written).
  split; [exact stream_30MiB_clean | split; [exact Hsum | split; [done |]]].
  exact (invoke_blob_too_large stream_30MiB "x" 0 [Byte.x00] "over"
           [text "after" "t"] stream_30MiB_clean Hsum).
Defined.

Lemma invoke_stops_at_fault_witness :
  raised (invoke [text "a" "1"; part "x" 8193]) = Some ChunkTooLarge
  ∧ invoke ([text "a" "1"; part "x" 8193] ++ [text "b" "2"; part "y" 1])
    = invoke [text "a" "1"; part "x" 8193].
Proof.
  assert (raised (invoke [text "a" "1"; part "x" 8193]) = Some ChunkTooLarge)
    as R by (by vm_compute).
  split; [exact R |].
  exact (invoke_stops_at_fault _ [text "b" "2"; part "y" 1] _ R).
Defined.

Lemma invoke_pass_through_witness :
  Forall forwarded [text "a" "1"; text "b" "2"]
  ∧ yielded (invoke [text "a" "1"; text "b" "2"]) = [text "a" "1"; text "b" "2"]
  ∧ raised (invoke [text "a" "1"; text "b" "2"]) = None.
Proof.
  assert (Forall forwarded [text "a" "1"; text "b" "2"]) as F
    by (by repeat apply Forall_cons_2).
  split; [exact F |].
  exact (invoke_pass_through [text "a" "1"; text "b" "2"] F).
Defined.

Lemma invoke_abandoned_blobs_witness :
  Forall well_typed partial_stream ∧ chunks_small partial_stream
  ∧ blobs_small partial_stream ∧ never_final "x" partial_stream
  ∧ raised (invoke partial_stream) = None
  ∧ yielded (invoke partial_stream)
    = yielded (invoke (without "x" partial_stream))
  ∧ files_of (invoke partial_stream) !! "x" = pending "x" partial_stream.
Proof.
  assert (Forall well_typed partial_stream) as W.
  { repeat apply Forall_cons_2; try apply well_typed_chunk; [| done].
    by apply well_typed_forwarded. }
  assert (chunks_small partial_stream) as S.
  { repeat apply Forall_cons_2; try done; intros id tl blob; by intros [= <- <- <-]. }
  assert (blobs_small partial_stream) as B.
  { intros id. unfold partial_stream, written, payload_for. simpl.
    repeat case_decide; by vm_compute. }
  assert (never_final "x" partial_stream) as F.
  { repeat apply Forall_cons_2; try done; by intros tl blob. }
  destruct (invoke_abandoned_blobs partial_stream W S B) as [R A].
  destruct (A "x" F) as [Y L].
  by repeat (split; [done |]).
Defined.

Lemma invoke_blob_meta_witness :
  raised (invoke [chunk "x" 4 AB false "first" : Msg]) = None
  ∧ ∃ buf tail,
      yielded (invoke ([chunk "x" 4 AB false "first"]
                         ++ chunk "x" 4 CD true "last" :: [text "c" "3"]))
      = yielded (invoke [chunk "x" 4 AB false "first" : Msg])
        ++ blob_message buf "last" :: tail.
Proof.
  assert (raised (invoke [chunk "x" 4 AB false "first" : Msg]) = None) as R
    by (by vm_compute).
  split; [exact R |].
  exact (invoke_blob_meta [chunk "x" 4 AB false "first"] "x" 4 CD "last"
           [text "c" "3"] R).
Defined.

Lemma invoke_blob_zero_filled_witness :
  raised (invoke [chunk "x" 4 AB false "first" : Msg]) = None
  ∧ len (written "x" [chunk "x" 4 AB false "first" : Msg])
    ≤ default 9 (declared "x" [chunk "x" 4 AB false "first" : Msg])
  ∧ ∃ buf tail,
      yielded (invoke ([chunk "x" 4 AB false "first"]
                         ++ chunk "x" 9 CD true "last" :: [text "c" "3"]))
      = yielded (invoke [chunk "x" 4 AB false "first" : Msg])
        ++ blob_message buf "last" :: tail
      ∧ len buf = 4
      ∧ take 2 buf = AB
      ∧ ∀ i : nat, (2 ≤ i < 4)%nat → buf !! i = Some Byte.x00.
Proof.
  assert (raised (invoke [chunk "x" 4 AB false "first" : Msg]) = None) as R
    by (by vm_compute).
  assert (len (written "x" [chunk "x" 4 AB false "first" : Msg])
          ≤ default 9 (declared "x" [chunk "x" 4 AB false "first" : Msg])) as H
    by (by vm_compute).
  split; [exact R | split; [exact H |]].
  exact (invoke_blob_zero_filled [chunk "x" 4 AB false "first"] "x" 9 CD "last"
           [text "c" "3"] R H).
Defined.

Lemma invoke_interleaved_witness :
  "x" ≠ "y" ∧ len AB ≤ 8192 ∧ len CD ≤ 8192
  ∧ yielded (invoke [chunk "x" 3 AB false "x1"; chunk "y" 2 CD false "y1";
                     chunk "x" 0 CD true "x2"; chunk "y" 0 AB true "y2" : Msg])
    = [blob_message (AB ++ bytearray (3 - len AB)) "x2";
       blob_message (CD ++ bytearray (2 - len CD)) "y2"].
Proof.
  assert ("x" ≠ "y") as Hxy by done.
  assert (len AB ≤ 8192) as Ha by (by vm_compute).
  assert (len CD ≤ 8192) as Hb by (by vm_compute).
  split; [exact Hxy | split; [exact Ha | split; [exact Hb |]]].
  exact (proj1 (invoke_interleaved (Payload:=string) "x" "y" 3 2 0 0 AB CD CD AB
                  "x1" "y1" "x2" "y2" Hxy Ha Hb)).
Defined.

Lemma invoke_reassembles_witness :
  Forall well_typed two_chunks ∧ chunks_small two_chunks ∧ blobs_small two_chunks
  ∧ raised (invoke two_chunks) = None
  ∧ yielded (invoke two_chunks) = reassembled [] two_chunks.
Proof.
  assert (Forall well_typed two_chunks) as W
    by (repeat apply Forall_cons_2; try apply well_typed_chunk; done).
  assert (chunks_small two_chunks) as S
    by (repeat apply Forall_cons_2; try done; intros id tl blob;
        by intros [= <- <- <-]).
  assert (blobs_small two_chunks) as B.
  { intros id. unfold two_chunks, written, payload_for. simpl.
    repeat case_decide; by vm_compute. }
  destruct (invoke_reassembles two_chunks W S B) as (R & Y & _).
  by repeat (split; [done |]).
Defined.

(** ** More about the loop *)

Section Loop_more.

Context {Payload Meta : Type}.
Implicit Types (resp : ToolInvokeMessage Payload Meta).
Implicit Types (evs pre rest : list (ToolInvokeMessage Payload Meta)).
Implicit Types (files : gmap string FileChunk).

Lemma body_mistyped files resp :
  mistyped resp → body files resp = mkRun files [] (Some AssertionError).
Proof.
  intros [Ht C]. unfold body. unfold as_chunk in C.
  case_decide; [| done]. by destruct (message resp).
Qed.

(** The converse of [body_accepted]: a pass through the body that raises
    nothing is one on a message that is [accepted]. *)
Lemma body_clean_accepted pre files resp :
  tracks pre files → raised (body files resp) = None → accepted pre resp.
Proof.
  intros T R.
  destruct (as_chunk resp) as [[[[id tl] blob] e] |] eqn:C.
  - apply as_chunk_Some in C as [m ->]. split; [apply well_typed_chunk |].
    intros id' tl' blob'. rewrite as_chunk_chunk. intros [= -> -> -> ->].
    rewrite body_not_final in R. cbv zeta in R.
    rewrite (ensure_file_tracks pre) in R by done. cbn [bytes_written] in R.
    destruct (30 * 1024 * 1024 <? _) eqn:E1; [done |].
    destruct (8192 <? _) eqn:E2; [done |].
    by apply N.ltb_ge in E1, E2.
  - split; [| intros id tl blob C'; congruence].
    intros Ht. rewrite body_mistyped in R by done. done.
Qed.

Lemma loop_clean_iff pre files evs :
  tracks pre files →
  raised (loop files evs) = None
  ↔ ∀ p resp q, evs = p ++ resp :: q → accepted (pre ++ p) resp.
Proof.
  revert pre files. induction evs as [| resp evs IH]; intros pre files T.
  - split; [| done]. intros _ p resp q E. by destruct p.
  - split.
    + intros R p r q E. simpl in R.
      destruct (raised (body files resp)) eqn:Rb; [by rewrite Rb in R |].
      simpl in R.
      destruct p as [| r' p]; simplify_eq/=.
      * rewrite (right_id_L [] (++)). by apply (body_clean_accepted _ files).
      * apply (IH (pre ++ [r'])) with (p := p) (resp := r) (q := q) in R;
          [| by apply body_tracks | done].
        by rewrite <- (assoc_L (++)) in R.
    + intros A. simpl.
      assert (accepted pre resp) as Ar.
      { specialize (A [] resp evs eq_refl).
        by rewrite (right_id_L [] (++)) in A. }
      rewrite (body_accepted pre) by done. simpl.
      apply (IH (pre ++ [resp]));
        [by apply body_tracks, (body_accepted pre) |].
      intros p r q ->. rewrite <- (assoc_L (++)). by apply (A (resp :: p) r q).
Qed.

Lemma entry_ok_init tl : entry_ok (FileChunk_init tl).
Proof.
  split; simpl; [done |]. rewrite len_bytearray. lia.
Qed.

Lemma len_setslice (buf blob : list byte) (lo : N) :
  lo ≤ len buf →
  len (setslice buf lo (lo + len blob) blob) = N.max (len buf) (lo + len blob).
Proof.
  unfold setslice, len. intros Hlo.
  rewrite !length_app, length_take, length_drop. lia.
Qed.

Lemma entry_ok_append fc blob :
  entry_ok fc → bytes_written fc + len blob ≤ 30 * 1024 * 1024 →
  entry_ok (append_blob fc blob).
Proof.
  intros [Hbw Hlen] Hsum. split; simpl; [done |].
  rewrite len_setslice by lia. lia.
Qed.

Lemma ensure_file_ok files id tl :
  map_Forall (λ _, entry_ok) files →
  map_Forall (λ _, entry_ok) (ensure_file files id tl).1
  ∧ entry_ok (ensure_file files id tl).2.
Proof.
  intros H. unfold ensure_file. destruct (files !! id) as [fc |] eqn:E; simpl.
  - split; [done |]. by apply (H id).
  - split; [| apply entry_ok_init].
    apply map_Forall_insert_2; [apply entry_ok_init | done].
Qed.

Lemma body_entries_ok files resp :
  map_Forall (λ _, entry_ok) files →
  map_Forall (λ _, entry_ok) (files_of (body files resp)).
Proof.
  intros H.
  destruct (as_chunk resp) as [[[[id tl] blob] e] |] eqn:C.
  - apply as_chunk_Some in C as [m ->].
    destruct (ensure_file_ok files id tl H) as [H1 H2].
    destruct e.
    + by rewrite body_final.
    + rewrite body_not_final. cbv zeta.
      destruct (30 * 1024 * 1024 <? _) eqn:E1; simpl.
      { by apply map_Forall_delete. }
      destruct (8192 <? _) eqn:E2; simpl; [done |].
      apply map_Forall_insert_2; [| done].
      apply entry_ok_append; [done |]. by apply N.ltb_ge in E1.
  - unfold body, as_chunk in *. case_decide; [| done].
    by destruct (message resp).
Qed.

Lemma loop_entries_ok files evs :
  map_Forall (λ _, entry_ok) files →
  map_Forall (λ _, entry_ok) (files_of (loop files evs)).
Proof.
  revert files. induction evs as [| resp evs IH]; intros files H; simpl;
    [done |].
  destruct (raised (body files resp)) eqn:R; simpl.
  - by apply body_entries_ok.
  - by apply IH, body_entries_ok.
Qed.

Lemma body_yields_at_most_one files resp :
  (length (yielded (body files resp)) ≤ 1)%nat.
Proof.
  destruct (as_chunk resp) as [[[[id tl] blob] e] |] eqn:C.
  - apply as_chunk_Some in C as [m ->]. destruct e.
    + by rewrite body_final.
    + rewrite body_not_final. cbv zeta.
      destruct (30 * 1024 * 1024 <? _); simpl; [lia |].
      destruct (8192 <? _); simpl; lia.
  - unfold body, as_chunk in *. case_decide; [| done].
    destruct (message resp); simpl; first [done | lia].
Qed.

Lemma emitted_length pre resp :
  length (emitted pre resp) = if is_part resp then 0%nat else 1%nat.
Proof.
  unfold emitted, is_part.
  destruct (as_chunk resp) as [[[[id tl] blob] e] |]; [| done].
  by destruct e.
Qed.

Lemma reassembled_length pre evs :
  (length (reassembled pre evs) + length (filter is_part evs))%nat = length evs.
Proof.
  revert pre. induction evs as [| resp evs IH]; intros pre; [done |].
  simpl. rewrite length_app, emitted_length.
  specialize (IH (pre ++ [resp])).
  destruct (is_part resp) eqn:E.
  - rewrite filter_cons_True by (by rewrite E). simpl. lia.
  - rewrite filter_cons_False by (rewrite E; simpl; tauto). simpl. lia.
Qed.

End Loop_more.

(** ** Further properties of the loop *)

Section Loop_properties.

Context {Payload Meta : Type}.
Implicit Types (resp : ToolInvokeMessage Payload Meta).
Implicit Types (evs pre post rest : list (ToolInvokeMessage Payload Meta)).
Implicit Types (files : gmap string FileChunk).

(** X3.  A message tagged [BLOB_CHUNK] whose payload is not a
    [BlobChunkMessage] fails the [assert]: after a prefix that raised
    nothing the run ends with [AssertionError], nothing is yielded for the
    message, [files] is as the prefix left it, and the rest of the stream
    is not read. *)
Theorem invoke_assertion_error pre resp rest :
  raised (invoke pre) = None → mistyped resp →
  invoke (pre ++ resp :: rest)
  = mkRun (files_of (invoke pre)) (yielded (invoke pre)) (Some AssertionError).
Proof.
  intros R M. apply (invoke_snoc_raised _ _ _ _ _ R). by apply body_mistyped.
Qed.

(** X4.  The run raises nothing exactly when every message of the stream
    is [accepted] where it stands: it passes the [assert], and if it is a
    chunk not marked [end] it carries at most 8192 bytes and brings the
    bytes written for its id by the messages before it to at most
    30 * 1024 * 1024. *)
Theorem invoke_clean_iff evs :
  raised (invoke evs) = None
  ↔ ∀ pre resp post, evs = pre ++ resp :: post → accepted pre resp.
Proof. apply (loop_clean_iff [] ∅ evs tracks_nil). Qed.

(** X5.  The [total_length] of a chunk counts only when the chunk is the
    first of its id: once the stream has had a chunk of the id, the run
    is the same whatever [total_length] a later chunk of that id
    declares. *)
Theorem invoke_later_total_length_ignored pre id tl0 tl tl' blob e (m : Meta) rest :
  declared id pre = Some tl0 →
  invoke (pre ++ chunk id tl blob e m :: rest)
  = invoke (pre ++ chunk id tl' blob e m :: rest).
Proof.
  intros D. unfold invoke. rewrite !loop_app. cbv zeta.
  destruct (raised (loop ∅ pre)) eqn:R; [done |].
  destruct (loop_clean [] ∅ pre tracks_nil R) as [T _].
  specialize (T id). change ([] ++ pre) with pre in T.
  unfold pending in T. rewrite D in T. simpl in T.
  assert (body (Payload:=Payload) (loop ∅ pre).(files_of) (chunk id tl blob e m)
          = body (loop ∅ pre).(files_of) (chunk id tl' blob e m)) as B;
    [| by cbn [loop]; rewrite B].
  destruct e.
  - by rewrite !body_final, !(ensure_file_present _ _ _ _ T).
  - by rewrite !body_not_final, !(ensure_file_present _ _ _ _ T).
Qed.

(** X6.  The [BLOB] message yielded at a final chunk is never cut to the
    declared [total_length]: it starts with all the bytes written for the
    id, and its length is the larger of the [total_length] the first chunk
    of the id declared and the number of bytes written. *)
Theorem invoke_blob_length pre id tl blob (m : Meta) rest :
  raised (invoke pre) = None →
  ∃ buf tail,
    yielded (invoke (pre ++ chunk id tl blob true m :: rest))
    = yielded (invoke pre) ++ blob_message buf m :: tail
    ∧ take (length (written id pre)) buf = written id pre
    ∧ len buf = N.max (default tl (declared id pre)) (len (written id pre)).
Proof.
  intros R.
  exists (written id pre
          ++ bytearray (default tl (declared id pre) - len (written id pre))).
  eexists. split; [| split].
  - unfold invoke in *. rewrite loop_app. simpl. rewrite R.
    fold (invoke pre). rewrite body_final. simpl.
    by rewrite (invoke_ensure_file pre).
  - by rewrite take_app_length.
  - rewrite len_app, len_bytearray. lia.
Qed.

(** X7.  Whatever the stream, and whether the run raised or not, every
    entry left in [files] has had at most 30 * 1024 * 1024 bytes written
    into it, and its buffer is as long as the larger of its [total_length]
    and its [bytes_written]. *)
Theorem invoke_entries_ok evs id fc :
  files_of (invoke evs) !! id = Some fc → entry_ok fc.
Proof.
  intros L. apply (loop_entries_ok ∅ evs (map_Forall_empty _) id fc L).
Qed.

(** X8.  What the generator has yielded stands: the messages yielded for a
    stream are a prefix of those yielded for any longer stream. *)
Theorem invoke_yielded_prefix pre rest :
  yielded (invoke pre) `prefix_of` yielded (invoke (pre ++ rest)).
Proof.
  unfold invoke. rewrite loop_app. cbv zeta.
  destruct (raised (loop ∅ pre)); simpl; [done |]. by apply prefix_app_r.
Qed.

(** X9.  The loop yields at most one message per message it reads.  In a
    run that raises nothing it yields exactly one message for every
    message that is not a chunk not marked [end], and none for those. *)
Theorem invoke_output_count evs :
  (length (yielded (invoke evs)) ≤ length evs)%nat
  ∧ (raised (invoke evs) = None →
     (length (yielded (invoke evs)) + length (filter is_part evs))%nat
     = length evs).
Proof.
  split.
  - unfold invoke. generalize (∅ : gmap string FileChunk).
    induction evs as [| resp evs IH]; intros files; simpl; [done |].
    pose proof (body_yields_at_most_one files resp) as Hb.
    destruct (raised (body files resp)); simpl; [lia |].
    rewrite length_app. specialize (IH (files_of (body files resp))). lia.
  - intros R. rewrite (proj2 (invoke_clean evs R)). apply reassembled_length.
Qed.

End Loop_properties.

Lemma invoke_assertion_error_witness :
  raised (invoke [text "a" "1"]) = None
  ∧ mistyped (mkToolInvokeMessage BLOB_CHUNK (BlobMessage AB) "m" : Msg)
  ∧ invoke ([text "a" "1"]
              ++ mkToolInvokeMessage BLOB_CHUNK (BlobMessage AB) "m"
              :: [text "b" "2"])
    = mkRun ∅ [text "a" "1"] (Some AssertionError).
Proof.
  assert (raised (invoke [text "a" "1"]) = None) as R by (by vm_compute).
  assert (mistyped (mkToolInvokeMessage BLOB_CHUNK (BlobMessage AB) "m" : Msg))
    as M by done.
  split; [exact R | split; [exact M |]].
  exact (invoke_assertion_error [text "a" "1"] _ [text "b" "2"] R M).
Defined.

Lemma invoke_later_total_length_ignored_witness :
  declared "x" [chunk "x" 4 AB false "first" : Msg] = Some 4
  ∧ invoke ([chunk "x" 4 AB false "first"] ++ chunk "x" 9 CD true "last" :: [])
    = invoke ([chunk "x" 4 AB false "first" : Msg]
                ++ chunk "x" 0 CD true "last" :: []).
Proof.
  assert (declared "x" [chunk "x" 4 AB false "first" : Msg] = Some 4) as D
    by done.
  split; [exact D |].
  exact (invoke_later_total_length_ignored [chunk "x" 4 AB false "first"]
           "x" 4 9 0 CD true "last" [] D).
Defined.

Lemma invoke_blob_length_witness :
  raised (invoke [chunk "x" 1 AB false "first" : Msg]) = None
  ∧ ∃ buf tail,
      yielded (invoke ([chunk "x" 1 AB false "first"]
                         ++ chunk "x" 1 [] true "last" :: [text "c" "3"]))
      = yielded (invoke [chunk "x" 1 AB false "first" : Msg])
        ++ blob_message buf "last" :: tail
      ∧ take 2 buf = AB
      ∧ len buf = N.max 1 2.
Proof.
  assert (raised (invoke [chunk "x" 1 AB false "first" : Msg]) = None) as R
    by (by vm_compute).
  split; [exact R |].
  exact (invoke_blob_length [chunk "x" 1 AB false "first"] "x" 1 [] "last"
           [text "c" "3"] R).
Defined.

Lemma invoke_entries_ok_witness :
  files_of (invoke partial_stream) !! "y"
  = Some {| bytes_written := 2; total_length := 2; data := CD |}
  ∧ entry_ok {| bytes_written := 2; total_length := 2; data := CD |}.
Proof.
  assert (files_of (invoke partial_stream) !! "y"
          = Some {| bytes_written := 2; total_length := 2; data := CD |}) as L
    by (by vm_compute).
  split; [exact L |].
  exact (invoke_entries_ok partial_stream "y" _ L).
Defined.

Lemma invoke_output_count_witness :
  raised (invoke partial_stream) = None
  ∧ (length (yielded (invoke partial_stream))
     + length (filter is_part partial_stream))%nat
    = length partial_stream.
Proof.
  assert (raised (invoke partial_stream) = None) as R by (by vm_compute).
  split; [exact R |].
  exact (proj2 (invoke_output_count partial_stream) R).
Defined.

(** ** The JSON transformers *)

Section Json_facts.

Context {Num : Type} (num_bool : Num → bool).
Implicit Types (v tool declaration provider data name : @json Num).
Implicit Types (d p : list (string * @json Num)).
Implicit Types (f : @json Num → outcome (@json Num)).

Lemma dict_get_set_eq d k v : dict_get (dict_set d k v) k = Some v.
Proof.
  induction d as [| [k' v'] d IH]; simpl.
  - by rewrite decide_True.
  - case_decide; simpl; [by rewrite decide_True | by rewrite decide_False].
Qed.

Lemma dict_get_set_ne d k k' v :
  k ≠ k' → dict_get (dict_set d k v) k' = dict_get d k'.
Proof.
  intros Hne. induction d as [| [k0 v0] d IH]; simpl.
  - by rewrite decide_False.
  - case_decide; simpl; [subst; by rewrite !decide_False |].
    by rewrite IH.
Qed.

Lemma dict_set_set d k v v' :
  dict_set (dict_set d k v) k v' = dict_set d k v'.
Proof.
  induction d as [| [k0 v0] d IH]; simpl.
  - by rewrite decide_True.
  - case_decide; simpl; [by rewrite decide_True |].
    by rewrite decide_False, IH.
Qed.

Lemma truthy_dict_set d k v : truthy num_bool (JDict (dict_set d k v)) = true.
Proof. destruct d as [| [k0 v0] d]; simpl; [done |]. by case_decide. Qed.

Lemma bind_Ok {A B} (r : outcome A) (g : A → outcome B) (b : B) :
  r ≫= g = Ok b → ∃ a, r = Ok a ∧ g a = Ok b.
Proof. destruct r as [a | e]; simpl; [by exists a | done]. Qed.

Lemma fmap_Ok {A B} (r : outcome A) (g : A → B) (b : B) :
  g <$> r = Ok b → ∃ a, r = Ok a ∧ b = g a.
Proof. destruct r as [a | e]; simpl; [intros [= <-]; by exists a | done]. Qed.

(** *** One tool *)

Lemma set_tool_provider_Ok name tool tool' :
  set_tool_provider name tool = Ok tool' →
  provider_of_tool tool' = Some name ∧ set_tool_provider name tool' = Ok tool'.
Proof.
  unfold set_tool_provider, provider_of_tool.
  destruct tool as [| | | | | d]; simpl; try done.
  destruct (dict_get d "identity") as [ident |] eqn:E; simpl; [| done].
  destruct ident as [| | | | | i]; simpl; try done.
  intros [= <-]. simpl. rewrite dict_get_set_eq. simpl.
  rewrite dict_get_set_eq. split; [done |].
  by rewrite !dict_set_set.
Qed.

(** *** Loops *)

Lemma for_each_Ok f l l' :
  for_each f l = Ok l' → Forall2 (λ x x', f x = Ok x') l l'.
Proof.
  revert l'. induction l as [| x l IH]; intros l'; simpl.
  - intros [= <-]. constructor.
  - intros H. apply bind_Ok in H as (x' & Hx & H).
    apply bind_Ok in H as (l'' & Hl & [= <-]).
    constructor; [done | by apply IH].
Qed.

Lemma for_each_fixed f l :
  Forall (λ x, f x = Ok x) l → for_each f l = Ok l.
Proof.
  induction 1 as [| x l Hx _ IH]; simpl; [done |].
  by rewrite Hx; simpl; rewrite IH.
Qed.

Lemma for_each_is_Ok f l :
  (∃ l', for_each f l = Ok l') ↔ Forall (λ x, ∃ x', f x = Ok x') l.
Proof.
  induction l as [| x l IH]; simpl.
  - split; [constructor | by exists []].
  - split.
    + intros [l' H]. apply bind_Ok in H as (x' & Hx & H).
      apply bind_Ok in H as (l'' & Hl & _).
      constructor; [by exists x' | apply IH; by exists l''].
    + intros H. apply Forall_cons in H as [[x' Hx] H].
      apply IH in H as [l'' Hl]. exists (x' :: l'').
      by rewrite Hx; simpl; rewrite Hl.
Qed.

Lemma for_each_idem f l l' :
  (∀ x x', f x = Ok x' → f x' = Ok x') →
  for_each f l = Ok l' → for_each f l' = Ok l'.
Proof.
  intros Hf H. apply for_each_fixed. apply for_each_Ok in H.
  induction H as [| x x' l l' Hx _ IH]; constructor; [by eapply Hf | done].
Qed.

Lemma for_in_items f v v' :
  for_in v f = Ok v' → Forall2 (λ x x', f x = Ok x') (items v) (items v').
Proof.
  destruct v as [| | | s | l | d]; simpl; try done.
  - intros H. apply bind_Ok in H as (? & _ & [= <-]). constructor.
  - intros H. apply fmap_Ok in H as (l' & H & ->). by apply for_each_Ok.
  - intros H. apply bind_Ok in H as (? & _ & [= <-]). constructor.
Qed.

Lemma for_in_idem f v v' :
  (∀ x x', f x = Ok x' → f x' = Ok x') →
  for_in v f = Ok v' → for_in v' f = Ok v'.
Proof.
  intros Hf. destruct v as [| | | s | l | d]; simpl; try done.
  - intros H. apply bind_Ok in H as (? & H & [= <-]). simpl. by rewrite H.
  - intros H. apply fmap_Ok in H as (l' & H & ->). simpl.
    by rewrite (for_each_idem _ _ _ Hf H).
  - intros H. apply bind_Ok in H as (? & H & [= <-]). simpl. by rewrite H.
Qed.

(** *** A block on the value of a key *)

Lemma on_key_Some d k dflt f d' v :
  dict_get d k = Some v → on_key d k dflt f = Ok d' →
  ∃ v', f v = Ok v' ∧ d' = dict_set d k v'.
Proof.
  unfold on_key. intros ->. intros H.
  apply bind_Ok in H as (v' & Hv & [= <-]). by exists v'.
Qed.

Lemma on_key_None d k dflt f d' :
  dict_get d k = None → on_key d k dflt f = Ok d' → d' = d.
Proof.
  unfold on_key. intros ->. intros H.
  by apply bind_Ok in H as (? & _ & [= <-]).
Qed.

Lemma on_key_other d k dflt f d' k' :
  on_key d k dflt f = Ok d' → k ≠ k' → dict_get d' k' = dict_get d k'.
Proof.
  intros H Hne. destruct (dict_get d k) as [v |] eqn:E.
  - destruct (on_key_Some _ _ _ _ _ _ E H) as (v' & _ & ->).
    by apply dict_get_set_ne.
  - by rewrite (on_key_None _ _ _ _ _ E H).
Qed.

Lemma on_key_truthy d k dflt f d' :
  on_key d k dflt f = Ok d' →
  truthy num_bool (JDict d') = truthy num_bool (JDict d).
Proof.
  intros H. destruct (dict_get d k) as [v |] eqn:E.
  - destruct (on_key_Some _ _ _ _ _ _ E H) as (v' & _ & ->).
    rewrite truthy_dict_set. by destruct d.
  - by rewrite (on_key_None _ _ _ _ _ E H).
Qed.

Lemma on_key_idem d k dflt f d' :
  (∀ v v', f v = Ok v' → f v' = Ok v') →
  on_key d k dflt f = Ok d' → on_key d' k dflt f = Ok d'.
Proof.
  intros Hf H. destruct (dict_get d k) as [v |] eqn:E.
  - destruct (on_key_Some _ _ _ _ _ _ E H) as (v' & Hv & ->).
    unfold on_key. rewrite dict_get_set_eq, (Hf _ _ Hv). simpl.
    by rewrite dict_set_set.
  - by pose proof (on_key_None _ _ _ _ _ E H) as ->.
Qed.

End Json_facts.

Section Transformers.

Context {Num : Type} (num_bool : Num → bool).
Implicit Types (v tool declaration provider data name : @json Num).
Implicit Types (d p json_response : list (string * @json Num)).

(** *** The tools of a declaration *)

Lemma set_tools_provider_Ok name declaration declaration' :
  set_tools_provider name declaration = Ok declaration' →
  ∃ d d', declaration = JDict d ∧ declaration' = JDict d'
    ∧ on_key d "tools" (JList [])
        (λ tools, for_in tools (set_tool_provider name)) = Ok d'.
Proof.
  destruct declaration as [| | | | | d]; simpl; try done.
  intros H. apply fmap_Ok in H as (d' & H & ->). by exists d, d'.
Qed.

Lemma set_tools_provider_effect name declaration declaration' :
  set_tools_provider name declaration = Ok declaration' →
  Forall (λ tool, provider_of_tool tool = Some name) (tools_of declaration').
Proof.
  intros H. apply set_tools_provider_Ok in H as (d & d' & -> & -> & H).
  unfold tools_of. simpl.
  destruct (dict_get d "tools") as [tools |] eqn:E.
  - destruct (on_key_Some _ _ _ _ _ _ E H) as (tools' & Ht & ->).
    rewrite dict_get_set_eq. simpl. apply for_in_items in Ht.
    induction Ht as [| x x' l l' Hx _ IH]; constructor; [| done].
    by apply set_tool_provider_Ok in Hx as [? _].
  - rewrite (on_key_None _ _ _ _ _ E H), E. constructor.
Qed.

Lemma set_tools_provider_idem name declaration declaration' :
  set_tools_provider name declaration = Ok declaration' →
  set_tools_provider name declaration' = Ok declaration'.
Proof.
  intros H. apply set_tools_provider_Ok in H as (d & d' & -> & -> & H).
  simpl. erewrite on_key_idem; [done | | exact H].
  intros v v'. apply for_in_idem. intros x x' Hx.
  by apply set_tool_provider_Ok in Hx as [_ ?].
Qed.

Lemma set_tools_provider_frame name declaration declaration' k :
  set_tools_provider name declaration = Ok declaration' →
  "tools" ≠ k → at_key k declaration' = at_key k declaration.
Proof.
  intros H Hne. apply set_tools_provider_Ok in H as (d & d' & -> & -> & H).
  simpl. by eapply on_key_other.
Qed.

Lemma set_tools_provider_truthy name declaration declaration' :
  set_tools_provider name declaration = Ok declaration' →
  truthy num_bool declaration' = truthy num_bool declaration.
Proof.
  intros H. apply set_tools_provider_Ok in H as (d & d' & -> & -> & H).
  by eapply on_key_truthy.
Qed.

Lemma tools_of_falsy declaration :
  truthy num_bool declaration = false → tools_of declaration = [].
Proof. by destruct declaration as [| | | | | [| ? ?]]. Qed.

(** *** One provider of the listing *)

Lemma transform_declaration_Ok declaration declaration' :
  transform_declaration declaration = Ok declaration' →
  set_tools_provider (name_of declaration) declaration = Ok declaration'.
Proof.
  unfold transform_declaration, name_of. intros H.
  apply bind_Ok in H as (ident & Hi & H).
  apply bind_Ok in H as (name & Hn & H).
  destruct declaration as [| | | | | d]; simpl in *; try done.
  injection Hi as <-.
  destruct (dict_get d "identity") as [ident |]; simpl in *.
  - destruct ident as [| | | | | i]; simpl in *; try done.
    by injection Hn as <-.
  - by injection Hn as <-.
Qed.

Lemma transform_declaration_empty :
  transform_declaration (Num:=Num) (JDict []) = Ok (JDict []).
Proof. reflexivity. Qed.

Lemma transform_declaration_name declaration declaration' :
  transform_declaration declaration = Ok declaration' →
  name_of declaration' = name_of declaration.
Proof.
  intros H. apply transform_declaration_Ok in H. unfold name_of.
  by rewrite (set_tools_provider_frame _ _ _ "identity" H).
Qed.

Lemma transform_declaration_idem declaration declaration' :
  transform_declaration declaration = Ok declaration' →
  transform_declaration declaration' = Ok declaration'.
Proof.
  intros H. pose proof (transform_declaration_name _ _ H) as Hn.
  apply transform_declaration_Ok in H as H'.
  pose proof (set_tools_provider_frame _ _ _ "identity" H' ltac:(done)) as Hi.
  apply set_tools_provider_idem in H' as H''.
  unfold transform_declaration in *.
  apply bind_Ok in H as (ident & Hid & H).
  apply bind_Ok in H as (name & Hname & H).
  apply set_tools_provider_Ok in H' as (d & d' & -> & -> & _).
  simpl in *. rewrite Hi. injection Hid as <-. rewrite Hname. simpl.
  assert (name = name_of (JDict d)) as ->.
  { unfold name_of. simpl.
    destruct (dict_get d "identity") as [[| | | | | i] |]; simpl in *;
      congruence. }
  done.
Qed.

Lemma transform_provider_cases provider provider' :
  transform_provider num_bool provider = Ok provider' →
  ∃ p, provider = JDict p ∧
    ((∃ declaration declaration',
        dict_get p "declaration" = Some declaration
        ∧ truthy num_bool declaration = true
        ∧ transform_declaration declaration = Ok declaration'
        ∧ provider' = JDict (dict_set p "declaration" declaration'))
     ∨ (provider' = provider
        ∧ ∀ declaration, dict_get p "declaration" = Some declaration →
            truthy num_bool declaration = false)).
Proof.
  destruct provider as [| | | | | p]; simpl; try done.
  intros H. exists p. split; [done |].
  destruct (dict_get p "declaration") as [declaration |] eqn:E.
  - destruct (truthy num_bool declaration) eqn:Tr.
    + apply bind_Ok in H as (declaration' & Hd & [= <-]).
      left. by exists declaration, declaration'.
    + injection H as <-. right. split; [done |]. by intros ? [= <-].
  - injection H as <-. right. split; [done |]. by intros ? [=].
Qed.

Lemma transform_provider_effect provider provider' declaration :
  transform_provider num_bool provider = Ok provider' →
  at_key "declaration" provider' = Some declaration →
  Forall (λ tool, provider_of_tool tool = Some (name_of declaration))
    (tools_of declaration).
Proof.
  intros H A. apply transform_provider_cases in H as (p & -> & H).
  destruct H as [(decl & decl' & E & Tr & Hd & ->) | [-> F]]; simpl in A.
  - rewrite dict_get_set_eq in A. injection A as <-.
    rewrite (transform_declaration_name _ _ Hd).
    by apply (set_tools_provider_effect _ decl), transform_declaration_Ok.
  - rewrite (tools_of_falsy declaration (F _ A)). constructor.
Qed.

Lemma transform_provider_idem provider provider' :
  transform_provider num_bool provider = Ok provider' →
  transform_provider num_bool provider' = Ok provider'.
Proof.
  intros H. apply transform_provider_cases in H as H'.
  destruct H' as (p & -> & [(decl & decl' & E & Tr & Hd & ->) | [-> F]]);
    [| done].
  simpl. rewrite dict_get_set_eq.
  apply transform_declaration_Ok in Hd as Hs.
  rewrite (set_tools_provider_truthy _ _ _ Hs), Tr.
  rewrite (transform_declaration_idem _ _ Hd). simpl.
  by rewrite dict_set_set.
Qed.

End Transformers.

(** ** Properties of the transformers *)

Section Transformer_properties.

Context {Num : Type} (num_bool : Num → bool).
Implicit Types (v tool declaration provider data : @json Num).
Implicit Types (d p json_response : list (string * @json Num)).

Lemma dict_set_keys d k v v0 :
  dict_get d k = Some v0 → (dict_set d k v).*1 = d.*1.
Proof.
  induction d as [| [k' v'] d IH]; simpl; [done |].
  case_decide; simpl; [by subst |]. intros H'. f_equal. by apply IH.
Qed.

(** X10.  When the transformer of [fetch_tool_providers] returns, every
    tool of every provider of the listing has, as [identity.provider], the
    [identity.name] of the declaration it stands in ([None] when the
    declaration has no identity or the identity no name). *)
Theorem fetch_tool_providers_transformer_names json_response json_response'
    provider declaration tool :
  fetch_tool_providers_transformer num_bool json_response = Ok json_response' →
  provider ∈ providers_of json_response' →
  at_key "declaration" provider = Some declaration →
  tool ∈ tools_of declaration →
  provider_of_tool tool = Some (name_of declaration).
Proof.
  unfold fetch_tool_providers_transformer, providers_of.
  intros H Hp Hd Ht.
  destruct (dict_get json_response "data") as [data |] eqn:E.
  - destruct (on_key_Some _ _ _ _ _ _ E H) as (data' & Hf & ->).
    rewrite dict_get_set_eq in Hp. simpl in Hp.
    apply for_in_items in Hf.
    apply (Forall2_Forall_r _ (λ x', ∃ x, transform_provider num_bool x = Ok x'))
      in Hf; [| apply Forall_true; by eauto].
    apply (proj1 (Forall_forall _ _) Hf) in Hp as [x Hx].
    pose proof (transform_provider_effect num_bool _ _ _ Hx Hd) as F.
    by apply (proj1 (Forall_forall _ _) F).
  - rewrite (on_key_None _ _ _ _ _ E H), E in Hp. simpl in Hp.
    by apply elem_of_nil in Hp.
Qed.

(** X11.  The transformer of [fetch_tool_providers] is idempotent: run on
    a response it has returned, it returns that response as it is. *)
Theorem fetch_tool_providers_transformer_idempotent json_response json_response' :
  fetch_tool_providers_transformer num_bool json_response = Ok json_response' →
  fetch_tool_providers_transformer num_bool json_response' = Ok json_response'.
Proof.
  apply on_key_idem. intros v v'. apply for_in_idem.
  apply transform_provider_idem.
Qed.

(** X12.  The transformer of [fetch_tool_providers] changes no key of the
    response and no value but that of ["data"], and the listing keeps its
    number of providers. *)
Theorem fetch_tool_providers_transformer_frame json_response json_response' :
  fetch_tool_providers_transformer num_bool json_response = Ok json_response' →
  json_response'.*1 = json_response.*1
  ∧ (∀ k, k ≠ "data" → dict_get json_response' k = dict_get json_response k)
  ∧ length (providers_of json_response') = length (providers_of json_response).
Proof.
  unfold fetch_tool_providers_transformer, providers_of. intros H.
  split; [| split].
  - destruct (dict_get json_response "data") as [data |] eqn:E.
    + destruct (on_key_Some _ _ _ _ _ _ E H) as (data' & _ & ->).
      by eapply dict_set_keys.
    + by rewrite (on_key_None _ _ _ _ _ E H).
  - intros k Hk. by eapply on_key_other.
  - destruct (dict_get json_response "data") as [data |] eqn:E.
    + destruct (on_key_Some _ _ _ _ _ _ E H) as (data' & Hf & ->).
      rewrite dict_get_set_eq. simpl. apply for_in_items in Hf.
      symmetry. by eapply Forall2_length.
    + by rewrite (on_key_None _ _ _ _ _ E H), E.
Qed.

(** X13.  A listing whose ["data"] is a list is transformed all or
    nothing: the transformer of [fetch_tool_providers] returns exactly
    when the loop body raises on none of the providers, so one provider of
    the wrong shape fails the whole listing. *)
Theorem fetch_tool_providers_transformer_all_or_nothing json_response providers :
  dict_get json_response "data" = Some (JList providers) →
  (∃ json_response',
     fetch_tool_providers_transformer num_bool json_response = Ok json_response')
  ↔ Forall (λ provider, ∃ provider',
              transform_provider num_bool provider = Ok provider') providers.
Proof.
  intros E. unfold fetch_tool_providers_transformer, on_key. rewrite E.
  simpl. rewrite <- for_each_is_Ok. split.
  - intros [j' H]. apply bind_Ok in H as (v' & H & _).
    apply fmap_Ok in H as (l' & H & _). by exists l'.
  - intros [l' H]. rewrite H. simpl. by eexists.
Qed.

(** X14.  When the transformer of [fetch_tool_provider] returns, every
    tool of the provider under ["data"] has the provider name the function
    was called with as [identity.provider]. *)
Theorem fetch_tool_provider_transformer_names (name : string)
    json_response json_response' data declaration tool :
  fetch_tool_provider_transformer num_bool name json_response = Ok json_response' →
  dict_get json_response' "data" = Some data →
  at_key "declaration" data = Some declaration →
  tool ∈ tools_of declaration →
  provider_of_tool tool = Some (JStr name).
Proof.
  unfold fetch_tool_provider_transformer. intros H Hd Hdecl Ht.
  destruct (dict_get json_response "data") as [data0 |] eqn:E;
    [| injection H as <-; congruence].
  destruct (truthy num_bool data0) eqn:Tr.
  - destruct data0 as [| | | | | dd]; try done.
    apply bind_Ok in H as (dd' & H & [= <-]).
    rewrite dict_get_set_eq in Hd. injection Hd as <-. simpl in Hdecl.
    destruct (dict_get dd "declaration") as [decl0 |] eqn:E'.
    + destruct (on_key_Some _ _ _ _ _ _ E' H) as (decl' & Hs & ->).
      rewrite dict_get_set_eq in Hdecl. injection Hdecl as <-.
      apply set_tools_provider_effect in Hs.
      by apply (proj1 (Forall_forall _ _) Hs).
    + rewrite (on_key_None _ _ _ _ _ E' H) in Hdecl. congruence.
  - injection H as <-. rewrite E in Hd. injection Hd as <-.
    destruct data0 as [| | | | | dd]; simpl in *; try done.
    by destruct dd.
Qed.

(** X15.  A response whose ["data"] is null makes the transformer of
    [fetch_tool_providers] raise [TypeError], while the transformer of
    [fetch_tool_provider] returns such a response as it is. *)
Theorem transformers_on_null_data (name : string) json_response :
  dict_get json_response "data" = Some JNone →
  fetch_tool_providers_transformer num_bool json_response = Raise TypeError
  ∧ fetch_tool_provider_transformer num_bool name json_response
    = Ok json_response.
Proof.
  intros E.
  unfold fetch_tool_providers_transformer, fetch_tool_provider_transformer, on_key.
  by rewrite E.
Qed.

End Transformer_properties.

(** ** Properties of the provider entities *)

Section Provider_properties.

Context {ToolFields IdentityFields DeclarationFields ProviderFields : Type}.
Abbreviation Entity :=
  (@PluginToolProviderEntity ToolFields IdentityFields DeclarationFields ProviderFields).

(** X16.  [fetch_tool_providers] returns as many providers as the
    response has, in their order: the provider at each place is the one of
    the response at that place, with its plugin id and its tools in number
    as they were, named [plugin_id/name], and with that qualified name as
    the [identity.provider] of every one of its tools. *)
Theorem fetch_tool_providers_qualifies (response : list Entity) :
  length (fetch_tool_providers response) = length response
  ∧ Forall2
      (λ provider provider',
         plugin_id provider' = plugin_id provider
         ∧ provider_name (identity (declaration provider'))
           = (plugin_id provider ++ "/"
              ++ provider_name (identity (declaration provider)))%string
         ∧ length (tools (declaration provider'))
           = length (tools (declaration provider))
         ∧ Forall (λ tool, tool_provider (tool_identity tool)
                           = provider_name (identity (declaration provider')))
             (tools (declaration provider')))
      response (fetch_tool_providers response).
Proof.
  unfold fetch_tool_providers. split; [by rewrite length_fmap |].
  apply Forall2_fmap_r, Forall_Forall2_diag, Forall_true. intros provider.
  simpl. split; [done | split; [done | split]].
  - by rewrite length_fmap.
  - apply Forall_fmap. by apply Forall_true.
Qed.

(** X17.  What [fetch_tool_providers] returns does not depend on the
    [identity.provider] the tools of the response came with: responses
    that differ in nothing else give the same providers. *)
Theorem fetch_tool_providers_overrides (response response' : list Entity) :
  Forall2 same_but_tool_providers response response' →
  fetch_tool_providers response = fetch_tool_providers response'.
Proof.
  unfold fetch_tool_providers.
  induction 1 as [| p p' l l' Hp _ IH]; simpl; [done |].
  f_equal; [| exact IH].
  destruct Hp as (Hid & Hident & Htools & Hd & Hf).
  unfold qualify. rewrite Hid, Hident, Hd, Hf. do 2 f_equal.
  generalize (plugin_id p' ++ "/"
              ++ provider_name (identity (declaration p')))%string.
  intros name.
  induction Htools as [| t t' ts ts' [H1 H2] _ IHt]; simpl; [done |].
  f_equal; [| exact IHt]. unfold set_provider. by rewrite H1, H2.
Qed.

(** X20.  [fetch_tool_provider] returns the provider of the response
    named [plugin_id/name], with its plugin id and the number of its tools
    as they were and with the qualified name as the [identity.provider] of
    every tool, whatever provider the tools named before. *)
Theorem fetch_tool_provider_qualifies (response : Entity) :
  let provider' := fetch_tool_provider response in
  plugin_id provider' = plugin_id response
  ∧ provider_name (identity (declaration provider'))
    = (plugin_id response ++ "/"
       ++ provider_name (identity (declaration response)))%string
  ∧ length (tools (declaration provider'))
    = length (tools (declaration response))
  ∧ Forall (λ tool, tool_provider (tool_identity tool)
                    = provider_name (identity (declaration provider')))
      (tools (declaration provider')).
Proof.
  simpl. split; [done | split; [done | split]].
  - by rewrite length_fmap.
  - apply Forall_fmap. by apply Forall_true.
Qed.

End Provider_properties.

(** ** Properties of the first-response functions *)

Section First_response_properties.

Context {ToolParameter : Type}.

(** X18.  [validate_provider_credentials] answers with the [result] of
    the first response and does not look at what the stream holds after
    it; on a stream without a response it answers [False]. *)
Theorem validate_provider_credentials_first
    (response rest : list PluginBasicBooleanResponse) :
  validate_provider_credentials [] = false
  ∧ validate_provider_credentials response
    = default false (result <$> head response)
  ∧ (response ≠ [] →
     validate_provider_credentials (response ++ rest)
     = validate_provider_credentials response).
Proof. split; [done |]. by destruct response. Qed.

(** X19.  [get_runtime_parameters] returns the [parameters] of the first
    response, whatever the stream holds after it, and the empty list on a
    stream without a response. *)
Theorem get_runtime_parameters_first
    (response rest : list (@RuntimeParametersResponse ToolParameter)) :
  get_runtime_parameters (ToolParameter:=ToolParameter) [] = []
  ∧ get_runtime_parameters response
    = default [] (parameters <$> head response)
  ∧ (response ≠ [] →
     get_runtime_parameters (response ++ rest)
     = get_runtime_parameters response).
Proof. split; [done |]. by destruct response. Qed.

End First_response_properties.

(** ** The transformers and the entities on sample responses *)

Lemma sample_listing_transformed :
  fetch_tool_providers_transformer int_bool sample_listing
  = Ok sample_listing_named.
Proof. by vm_compute. Qed.

Lemma fetch_tool_providers_transformer_names_witness :
  fetch_tool_providers_transformer int_bool sample_listing
  = Ok sample_listing_named
  ∧ sample_provider_named ∈ providers_of sample_listing_named
  ∧ at_key "declaration" sample_provider_named
    = Some (JDict [("identity", JDict [("name", JStr "search")]);
                   ("tools", JList [sample_tool "web" [("provider", JStr "search")];
                                    sample_tool "news" [("provider", JStr "search")]])])
  ∧ sample_tool "news" [("provider", JStr "search")]
    ∈ tools_of (JDict [("identity", JDict [("name", JStr "search")]);
                       ("tools", JList [sample_tool "web" [("provider", JStr "search")];
                                        sample_tool "news" [("provider", JStr "search")]])])
  ∧ provider_of_tool (sample_tool "news" [("provider", JStr "search")])
    = Some (JStr "search").
Proof.
  assert (sample_provider_named ∈ providers_of sample_listing_named) as Hp
    by (vm_compute; apply list_elem_of_here).
  assert (sample_tool "news" [("provider", JStr "search")]
          ∈ tools_of (JDict [("identity", JDict [("name", JStr "search")]);
                             ("tools", JList [sample_tool "web" [("provider", JStr "search")];
                                              sample_tool "news" [("provider", JStr "search")]])]))
    as Ht by (vm_compute; apply list_elem_of_further, list_elem_of_here).
  split; [exact sample_listing_transformed | split; [exact Hp | split; [done |]]].
  split; [exact Ht |].
  exact (fetch_tool_providers_transformer_names int_bool _ _ _ _ _
           sample_listing_transformed Hp eq_refl Ht).
Defined.

Lemma fetch_tool_providers_transformer_idempotent_witness :
  fetch_tool_providers_transformer int_bool sample_listing
  = Ok sample_listing_named
  ∧ fetch_tool_providers_transformer int_bool sample_listing_named
    = Ok sample_listing_named.
Proof.
  split; [exact sample_listing_transformed |].
  exact (fetch_tool_providers_transformer_idempotent int_bool _ _
           sample_listing_transformed).
Defined.

Lemma fetch_tool_providers_transformer_frame_witness :
  fetch_tool_providers_transformer int_bool sample_listing
  = Ok sample_listing_named
  ∧ sample_listing_named.*1 = sample_listing.*1
  ∧ (∀ k, k ≠ "data" → dict_get sample_listing_named k = dict_get sample_listing k)
  ∧ length (providers_of sample_listing_named) = length (providers_of sample_listing).
Proof.
  split; [exact sample_listing_transformed |].
  exact (fetch_tool_providers_transformer_frame int_bool _ _
           sample_listing_transformed).
Defined.

Lemma fetch_tool_providers_transformer_all_or_nothing_witness :
  dict_get sample_listing "data"
  = Some (JList [sample_provider; JDict [("declaration", JNone)]])
  ∧ ((∃ json_response',
        fetch_tool_providers_transformer int_bool sample_listing
        = Ok json_response')
     ↔ Forall (λ provider, ∃ provider',
                 transform_provider int_bool provider = Ok provider')
         [sample_provider; JDict [("declaration", JNone)]]).
Proof.
  split; [done |].
  exact (fetch_tool_providers_transformer_all_or_nothing int_bool
           sample_listing _ eq_refl).
Defined.

Lemma fetch_tool_provider_transformer_names_witness :
  fetch_tool_provider_transformer int_bool "search" [("data", sample_provider)]
  = Ok [("data", sample_provider_named)]
  ∧ dict_get [("data", sample_provider_named)] "data" = Some sample_provider_named
  ∧ at_key "declaration" sample_provider_named
    = Some (JDict [("identity", JDict [("name", JStr "search")]);
                   ("tools", JList [sample_tool "web" [("provider", JStr "search")];
                                    sample_tool "news" [("provider", JStr "search")]])])
  ∧ sample_tool "web" [("provider", JStr "search")]
    ∈ tools_of (JDict [("identity", JDict [("name", JStr "search")]);
                       ("tools", JList [sample_tool "web" [("provider", JStr "search")];
                                        sample_tool "news" [("provider", JStr "search")]])])
  ∧ provider_of_tool (sample_tool "web" [("provider", JStr "search")])
    = Some (JStr "search").
Proof.
  assert (fetch_tool_provider_transformer int_bool "search"
            [("data", sample_provider)]
          = Ok [("data", sample_provider_named)]) as H by (by vm_compute).
  assert (sample_tool "web" [("provider", JStr "search")]
          ∈ tools_of (JDict [("identity", JDict [("name", JStr "search")]);
                             ("tools", JList [sample_tool "web" [("provider", JStr "search")];
                                              sample_tool "news" [("provider", JStr "search")]])]))
    as Ht by (vm_compute; apply list_elem_of_here).
  split; [exact H | split; [done | split; [done | split; [exact Ht |]]]].
  exact (fetch_tool_provider_transformer_names int_bool "search" _ _ _ _ _
           H eq_refl eq_refl Ht).
Defined.

Lemma transformers_on_null_data_witness :
  dict_get [("data", @JNone Z)] "data" = Some JNone
  ∧ fetch_tool_providers_transformer int_bool [("data", JNone)] = Raise TypeError
  ∧ fetch_tool_provider_transformer int_bool "search" [("data", JNone)]
    = Ok [("data", JNone)].
Proof.
  split; [done |].
  exact (transformers_on_null_data int_bool "search" [("data", JNone)] eq_refl).
Defined.

Lemma fetch_tool_providers_qualifies_witness :
  length (fetch_tool_providers [sample_entity "old"; sample_entity "older"]) = 2%nat
  ∧ (λ provider, provider_name (identity (declaration provider)))
      <$> fetch_tool_providers [sample_entity "old"; sample_entity "older"]
    = ["langgenius/search/search"; "langgenius/search/search"]
  ∧ Forall2
      (λ provider provider',
         plugin_id provider' = plugin_id provider
         ∧ provider_name (identity (declaration provider'))
           = (plugin_id provider ++ "/"
              ++ provider_name (identity (declaration provider)))%string
         ∧ length (tools (declaration provider'))
           = length (tools (declaration provider))
         ∧ Forall (λ tool, tool_provider (tool_identity tool)
                           = provider_name (identity (declaration provider')))
             (tools (declaration provider')))
      [sample_entity "old"; sample_entity "older"]
      (fetch_tool_providers [sample_entity "old"; sample_entity "older"]).
Proof.
  pose proof (fetch_tool_providers_qualifies
                [sample_entity "old"; sample_entity "older"]) as [Hl Hf].
  split; [exact Hl | split; [done | exact Hf]].
Defined.

Lemma fetch_tool_providers_overrides_witness :
  Forall2 same_but_tool_providers [sample_entity "old"] [sample_entity "new"]
  ∧ fetch_tool_providers [sample_entity "old"]
    = fetch_tool_providers [sample_entity "new"].
Proof.
  assert (Forall2 same_but_tool_providers
            [sample_entity "old"] [sample_entity "new"]) as H.
  { repeat constructor. }
  split; [exact H |].
  exact (fetch_tool_providers_overrides _ _ H).
Defined.

Lemma validate_provider_credentials_first_witness :
  [mkPluginBasicBooleanResponse false] ≠ []
  ∧ validate_provider_credentials
      ([mkPluginBasicBooleanResponse false] ++ [mkPluginBasicBooleanResponse true])
    = validate_provider_credentials [mkPluginBasicBooleanResponse false].
Proof.
  assert ([mkPluginBasicBooleanResponse false] ≠ []) as H by done.
  split; [exact H |].
  exact (proj2 (proj2 (validate_provider_credentials_first
                         [mkPluginBasicBooleanResponse false]
                         [mkPluginBasicBooleanResponse true])) H).
Defined.

Lemma get_runtime_parameters_first_witness :
  [mkRuntimeParametersResponse ["query"]] ≠ []
  ∧ get_runtime_parameters
      ([mkRuntimeParametersResponse ["query"]] ++ [mkRuntimeParametersResponse ["page"]])
    = get_runtime_parameters [mkRuntimeParametersResponse ["query"]].
Proof.
  assert ([mkRuntimeParametersResponse ["query"]] ≠ []) as H by done.
  split; [exact H |].
  exact (proj2 (proj2 (get_runtime_parameters_first
                         [mkRuntimeParametersResponse ["query"]]
                         [mkRuntimeParametersResponse ["page"]])) H).
Defined.

(** ** Entries that go away, and streams that end with a fault *)

Lemma declared_replicate_part id n k :
  declared id (replicate (S k) (part id n)) = Some 0.
Proof.
  change (replicate (S k) (part id n)) with (part id n :: replicate k (part id n)).
  unfold declared, part. rewrite as_chunk_chunk. by rewrite decide_True.
Qed.

Lemma stream_30MiB_entry : is_Some (files_of (invoke stream_30MiB) !! "x").
Proof.
  destruct (invoke_clean _ stream_30MiB_clean) as [T _].
  rewrite (T "x"). unfold pending, stream_30MiB.
  rewrite (declared_replicate_part "x" 8192 3839). by eexists.
Qed.

Lemma stream_30MiB_one_more :
  loop (files_of (invoke stream_30MiB))
    [chunk "x" 0 [Byte.x00] false "over" : Msg]
  = mkRun (delete "x" (files_of (invoke stream_30MiB))) [] (Some BlobTooLarge).
Proof.
  apply loop_cons_raised.
  rewrite (body_after_clean _ _ _ _ _ stream_30MiB_clean).
  by rewrite stream_30MiB_written.
Qed.

(** The entry of ["x"] that [stream_30MiB] leaves is there, and goes away
    at one more byte for ["x"], with [BlobTooLarge]. *)
Lemma body_final_keeps_entry_witness :
  is_Some (files_of (invoke stream_30MiB) !! "x")
  ∧ files_of (loop (files_of (invoke stream_30MiB))
                [chunk "x" 0 [Byte.x00] false "over" : Msg]) !! "x" = None
  ∧ raised (loop (files_of (invoke stream_30MiB))
              [chunk "x" 0 [Byte.x00] false "over" : Msg]) = Some BlobTooLarge.
Proof.
  assert (files_of (loop (files_of (invoke stream_30MiB))
                     [chunk "x" 0 [Byte.x00] false "over" : Msg]) !! "x" = None)
    as N.
  { rewrite stream_30MiB_one_more. cbn [files_of]. apply lookup_delete_eq. }
  split; [exact stream_30MiB_entry | split; [exact N |]].
  pose proof (body_final_keeps_entry (Payload:=string)
                (files_of (invoke stream_30MiB)) "x" 0 [] "last")
    as (_ & _ & _ & _ & _ & H).
  exact (proj1 (H [chunk "x" 0 [Byte.x00] false "over"] "x"
                  stream_30MiB_entry N)).
Defined.

(** C8 as stated fails: the stream of one chunk of 8193 bytes for ["x"],
    not marked [end], ends while ["x"] has only had a chunk that is not
    final, and the run raises [ChunkTooLarge]. *)
Lemma partial_blob_stream_raises :
  never_final "x" [part "x" 8193]
  ∧ chunk_id_of (part "x" 8193) = Some "x"
  ∧ raised (invoke [part "x" 8193]) = Some ChunkTooLarge.
Proof.
  split; [| split; [done | by vm_compute]].
  apply Forall_singleton. intros tl blob. unfold part.
  rewrite as_chunk_chunk. congruence.
Qed.
